(** * aws-web-ui: the WebUI construct and the signed-URL generator

    A shallow embedding of

    - [lib/web-ui.ts]: the [WebUI] construct (cache policies, the ordered
      table of CloudFront behaviours, the custom error responses), and
    - [utils/signed-url-generator.ts]: [SignedURLGenerator.generateSignedURL],

    together with the parts of the edge pipeline that the repository leaves
    to CloudFront (behaviour resolution, error-response mapping, token
    verification), which are modelled from the specification and marked so.

    JavaScript strings are sequences of UTF-16 code units ([jsstring]);
    JavaScript numbers that hold integers are modelled by [Z], which is exact
    for every safe integer. *)

From Stdlib Require Import ZArith NArith List String Ascii Bool Lia.
From Stdlib Require Import DecimalZ.
From Stdlib Require DecimalPos.
From Stdlib Require Strings.Byte.
Import ListNotations.

(* ================================================================= *)
(** * JavaScript strings *)

(** A string is its sequence of UTF-16 code units. *)
Definition jsstring := list N.

(** A string literal of the source (ASCII only). *)
Fixpoint lit (s : string) : jsstring :=
  match s with
  | EmptyString => []
  | String a rest => N_of_ascii a :: lit rest
  end.
Arguments lit s%_string.

(** [a === b] on strings. *)
Fixpoint jsstring_eqb (a b : jsstring) : bool :=
  match a, b with
  | [], [] => true
  | x :: a', y :: b' => N.eqb x y && jsstring_eqb a' b'
  | _, _ => false
  end.

(** [path.startsWith(prefix)]. *)
Fixpoint starts_with (prefix path : jsstring) : bool :=
  match prefix, path with
  | [], _ => true
  | x :: prefix', y :: path' => N.eqb x y && starts_with prefix' path'
  | _ :: _, [] => false
  end.

(** [!!v] for an optional string property: [undefined] and the empty string
    are falsy, every other string is truthy. *)
Definition truthy (v : option jsstring) : bool :=
  match v with
  | Some (_ :: _) => true
  | Some [] => false
  | None => false
  end.

(* ================================================================= *)
(** * The CDK values the construct builds *)

Module Duration.

(** [Duration.seconds(n)], [Duration.minutes(n)], [Duration.hours(n)] and
    [Duration.days(n)]. *)
Inductive t : Type :=
| seconds (amount : Z)
| minutes (amount : Z)
| hours (amount : Z)
| days (amount : Z).

Definition toSeconds (d : t) : Z :=
  match d with
  | seconds n => n
  | minutes n => n * 60
  | hours n => n * 3600
  | days n => n * 86400
  end.

End Duration.

Inductive RemovalPolicy : Type := DESTROY | RETAIN | SNAPSHOT.

Inductive ViewerProtocolPolicy : Type := HTTPS_ONLY | REDIRECT_TO_HTTPS | ALLOW_ALL.

Inductive PriceClass : Type := PRICE_CLASS_100 | PRICE_CLASS_200 | PRICE_CLASS_ALL.

(** A bucket is either created by the construct ([new Bucket]) or looked up
    by name ([Bucket.fromBucketName]). *)
Inductive Bucket : Type :=
| NewBucket (id : jsstring) (removalPolicy : RemovalPolicy)
| fromBucketName (id : jsstring) (bucketName : jsstring).

(** Deploy-time attributes of a construct (CDK tokens). *)
Inductive Attribute : Type :=
| bucketArn (b : Bucket)
| arnForObjects (b : Bucket) (keyPattern : jsstring)
| bucketName (b : Bucket)
| distributionDomainName (distributionId : jsstring).

Inductive Principal : Type :=
| CanonicalUserPrincipal (canonicalUserId : jsstring).

Record PolicyStatement : Type := {
  principals : list Principal;
  actions : list jsstring;
  resources : list Attribute
}.

Record OriginAccessIdentity : Type := fromOriginAccessIdentityName {
  oai_id : jsstring;
  originAccessIdentityName : jsstring
}.

Record PublicKey : Type := fromPublicKeyId {
  pk_id : jsstring;
  publicKeyId : jsstring
}.

Record KeyGroup : Type := {
  kg_id : jsstring;
  items : list PublicKey
}.

Record S3BucketOrigin : Type := withOriginAccessIdentity {
  bucket : Bucket;
  originAccessIdentity : OriginAccessIdentity
}.

Record CachePolicy : Type := {
  cp_id : jsstring;
  minTtl : Duration.t;
  defaultTtl : Duration.t;
  maxTtl : Duration.t
}.

Record Certificate : Type := fromCertificateArn {
  cert_id : jsstring;
  certificateArn : option jsstring
}.

(** [BehaviorOptions]: [trustedKeyGroups] is optional, [None] is a behaviour
    that leaves the property out. *)
Record BehaviorOptions : Type := {
  origin : S3BucketOrigin;
  cachePolicy : CachePolicy;
  viewerProtocolPolicy : ViewerProtocolPolicy;
  trustedKeyGroups : option (list KeyGroup)
}.

Record ErrorResponse : Type := {
  httpStatus : Z;
  responseHttpStatus : Z;
  responsePagePath : jsstring
}.

(** The properties handed to [new Distribution].  [additionalBehaviors] is an
    object literal whose keys are path patterns; its entries are kept in the
    order the literal lists them, which is the order [Object.entries]
    enumerates them in. *)
Record DistributionProps : Type := {
  certificate : Certificate;
  defaultRootObject : jsstring;
  domainNames : option (list jsstring);
  defaultBehavior : BehaviorOptions;
  additionalBehaviors : list (jsstring * BehaviorOptions);
  priceClass : PriceClass;
  errorResponses : list ErrorResponse
}.

Record CfnOutput : Type := {
  output_id : jsstring;
  value : Attribute
}.

(* ================================================================= *)
(** * lib/web-ui.ts *)

Record WebUIProps : Type := {
  deploymentName : option jsstring;
  aliases : option (list jsstring);
  acmCertificateArn : option jsstring;
  viewersPublicKeyId : jsstring;
  loginBucketName : jsstring;
  OriginAccessIdentityName : jsstring;
  OriginAccessIdentityCanonicalUserId : jsstring;
  AppsLoginUrl : option jsstring
}.

Record WebUI : Type := {
  websiteBucket : Bucket;
  websiteBucketPolicy : list PolicyStatement;
  trustedKeyGroup : KeyGroup;
  websiteDistribution : DistributionProps;
  outputs : list CfnOutput
}.

Section Constructor.

Variable props : WebUIProps.

Definition websiteOAI : OriginAccessIdentity :=
  fromOriginAccessIdentityName (lit "WebsiteOAI") (OriginAccessIdentityName props).

Definition new_websiteBucket : Bucket :=
  NewBucket (lit "WebsiteBucket") DESTROY.

Definition websiteBucket_statement : PolicyStatement :=
  {| principals := [CanonicalUserPrincipal (OriginAccessIdentityCanonicalUserId props)];
     actions := [lit "s3:GetObject"; lit "s3:ListBucket"];
     resources := [bucketArn new_websiteBucket;
                   arnForObjects new_websiteBucket (lit "*")] |}.

Definition loginBucket : Bucket :=
  fromBucketName (lit "LoginBucket") (loginBucketName props).

Definition trustedPublicKey : PublicKey :=
  fromPublicKeyId (lit "ViewersKey") (viewersPublicKeyId props).

Definition new_trustedKeyGroup : KeyGroup :=
  {| kg_id := lit "ViewersKeyGroup"; items := [trustedPublicKey] |}.

Definition defaultOrigin : S3BucketOrigin :=
  withOriginAccessIdentity new_websiteBucket websiteOAI.

Definition loginOrigin : S3BucketOrigin :=
  withOriginAccessIdentity loginBucket websiteOAI.

Definition defaultCachePolicy : CachePolicy :=
  {| cp_id := lit "DefaultCachePolicy";
     minTtl := Duration.seconds 0;
     defaultTtl := Duration.minutes 5;
     maxTtl := Duration.hours 24 |}.

Definition longStorageCachePolicy : CachePolicy :=
  {| cp_id := lit "LongStorageCachePolicy";
     minTtl := Duration.days 365;
     defaultTtl := Duration.days 720;
     maxTtl := Duration.days 3650 |}.

Definition new_certificate : Certificate :=
  fromCertificateArn (lit "WebsiteCertificate") (acmCertificateArn props).

Definition new_defaultBehavior : BehaviorOptions :=
  {| origin := defaultOrigin;
     cachePolicy := defaultCachePolicy;
     viewerProtocolPolicy := REDIRECT_TO_HTTPS;
     trustedKeyGroups := Some [new_trustedKeyGroup] |}.

Definition new_additionalBehaviors : list (jsstring * BehaviorOptions) :=
  [ (lit "/login.html",
      {| origin := loginOrigin;
         cachePolicy := defaultCachePolicy;
         viewerProtocolPolicy := REDIRECT_TO_HTTPS;
         trustedKeyGroups := None |});
    (lit "/apps-login.html",
      {| origin := loginOrigin;
         cachePolicy := defaultCachePolicy;
         viewerProtocolPolicy := HTTPS_ONLY;
         trustedKeyGroups := None |});
    (lit "/eth-login.html",
      {| origin := loginOrigin;
         cachePolicy := defaultCachePolicy;
         viewerProtocolPolicy := HTTPS_ONLY;
         trustedKeyGroups := None |});
    (lit "/idpresponse.html",
      {| origin := loginOrigin;
         cachePolicy := defaultCachePolicy;
         viewerProtocolPolicy := HTTPS_ONLY;
         trustedKeyGroups := None |});
    (lit "/apps-idpresponse.html",
      {| origin := loginOrigin;
         cachePolicy := defaultCachePolicy;
         viewerProtocolPolicy := HTTPS_ONLY;
         trustedKeyGroups := None |});
    (lit "/favicon.png",
      {| origin := defaultOrigin;
         cachePolicy := defaultCachePolicy;
         viewerProtocolPolicy := REDIRECT_TO_HTTPS;
         trustedKeyGroups := None |});
    (lit "/logo.png",
      {| origin := defaultOrigin;
         cachePolicy := defaultCachePolicy;
         viewerProtocolPolicy := REDIRECT_TO_HTTPS;
         trustedKeyGroups := None |});
    (lit "/css/*",
      {| origin := defaultOrigin;
         cachePolicy := longStorageCachePolicy;
         viewerProtocolPolicy := HTTPS_ONLY;
         trustedKeyGroups := Some [new_trustedKeyGroup] |});
    (lit "/css/chunk-vendors*",
      {| origin := defaultOrigin;
         cachePolicy := longStorageCachePolicy;
         viewerProtocolPolicy := HTTPS_ONLY;
         trustedKeyGroups := None |});
    (lit "/js/*",
      {| origin := defaultOrigin;
         cachePolicy := longStorageCachePolicy;
         viewerProtocolPolicy := HTTPS_ONLY;
         trustedKeyGroups := Some [new_trustedKeyGroup] |});
    (lit "/js/chunk-vendors*",
      {| origin := defaultOrigin;
         cachePolicy := longStorageCachePolicy;
         viewerProtocolPolicy := HTTPS_ONLY;
         trustedKeyGroups := None |});
    (lit "/assets/*",
      {| origin := defaultOrigin;
         cachePolicy := longStorageCachePolicy;
         viewerProtocolPolicy := HTTPS_ONLY;
         trustedKeyGroups := Some [new_trustedKeyGroup] |}) ].

Definition new_errorResponses : list ErrorResponse :=
  [ {| httpStatus := 404;
       responseHttpStatus := 200;
       responsePagePath := lit "/" |};
    {| httpStatus := 403;
       responseHttpStatus := 200;
       responsePagePath :=
         if truthy (AppsLoginUrl props)
         then lit "/apps-login.html"
         else lit "/login.html" |} ].

Definition new_websiteDistribution : DistributionProps :=
  {| certificate := new_certificate;
     defaultRootObject := lit "index.html";
     domainNames := aliases props;
     defaultBehavior := new_defaultBehavior;
     additionalBehaviors := new_additionalBehaviors;
     priceClass := PRICE_CLASS_100;
     errorResponses := new_errorResponses |}.

(** [new WebUI(scope, id, props)]. *)
Definition new_WebUI : WebUI :=
  {| websiteBucket := new_websiteBucket;
     websiteBucketPolicy := [websiteBucket_statement];
     trustedKeyGroup := new_trustedKeyGroup;
     websiteDistribution := new_websiteDistribution;
     outputs :=
       [ {| output_id := lit "WebUIBucketName";
            value := bucketName new_websiteBucket |};
         {| output_id := lit "WebUIDomainName";
            value := distributionDomainName (lit "WebsiteDistribution") |} ] |}.

End Constructor.

(** The same properties with another [AppsLoginUrl]. *)
Definition with_AppsLoginUrl (v : option jsstring) (p : WebUIProps) : WebUIProps :=
  {| deploymentName := deploymentName p;
     aliases := aliases p;
     acmCertificateArn := acmCertificateArn p;
     viewersPublicKeyId := viewersPublicKeyId p;
     loginBucketName := loginBucketName p;
     OriginAccessIdentityName := OriginAccessIdentityName p;
     OriginAccessIdentityCanonicalUserId := OriginAccessIdentityCanonicalUserId p;
     AppsLoginUrl := v |}.

(** The properties [bin/aws-web-ui.ts] deploys the stack with, as
    [NerdiylandWebUi] forwards them (no aliases, no [AppsLoginUrl]). *)
Definition bin_props : WebUIProps :=
  {| deploymentName := None;
     aliases := None;
     acmCertificateArn := Some [];
     viewersPublicKeyId := [];
     loginBucketName := [];
     OriginAccessIdentityName := [];
     OriginAccessIdentityCanonicalUserId := [];
     AppsLoginUrl := None |}.

(* ================================================================= *)
(** * The edge pipeline CloudFront runs on the construct's configuration *)

Inductive ConfigError : Type :=
| InvalidPolicy
| DuplicatePattern
| MissingDefault.

(** Modelled from the spec: the [CachePolicy] value object of section 4.1
    (the repository hands its durations to the CDK's [CachePolicy] class,
    whose constructor is not part of it).  Durations are in seconds. *)
Record CachePolicyValue : Type := {
  minTTL : Z;
  defaultTTL : Z;
  maxTTL : Z
}.

(** Modelled from the spec: construction of a [CachePolicy] "fails with
    [InvalidPolicy] if [minTTL > defaultTTL] or [defaultTTL > maxTTL] or any
    duration is negative". *)
Definition NewCachePolicy (minTTL defaultTTL maxTTL : Z) : ConfigError + CachePolicyValue :=
  if (minTTL <? 0)%Z || (defaultTTL <? 0)%Z || (maxTTL <? 0)%Z then inl InvalidPolicy
  else if (defaultTTL <? minTTL)%Z then inl InvalidPolicy
  else if (maxTTL <? defaultTTL)%Z then inl InvalidPolicy
  else inr {| minTTL := minTTL; defaultTTL := defaultTTL; maxTTL := maxTTL |}.

(** The value a [CachePolicy] of the construct stands for. *)
Definition policy_value (cp : CachePolicy) : ConfigError + CachePolicyValue :=
  NewCachePolicy (Duration.toSeconds (minTtl cp))
                 (Duration.toSeconds (defaultTtl cp))
                 (Duration.toSeconds (maxTtl cp)).

Inductive OriginId : Type := Website | Login.

(** Modelled from the spec: a [Behavior] of section 3. *)
Record Behavior : Type := {
  pattern : jsstring;
  originId : OriginId;
  behaviorCachePolicy : CachePolicy;
  requireSignedToken : bool;
  requireHTTPS : ViewerProtocolPolicy
}.

(** Modelled from the spec: the [BehaviorTable] of section 3, "an ordered
    sequence of [Behavior] plus exactly one [defaultBehavior]". *)
Record BehaviorTable : Type := {
  behaviors : list Behavior;
  tableDefault : Behavior
}.

(** The login bucket is the one looked up by name; the website bucket is the
    one the construct creates. *)
Definition originId_of (o : S3BucketOrigin) : OriginId :=
  match bucket o with
  | NewBucket _ _ => Website
  | fromBucketName _ _ => Login
  end.

(** A viewer needs a signed URL exactly when the behaviour lists a trusted
    key group. *)
Definition requires_signature (b : BehaviorOptions) : bool :=
  match trustedKeyGroups b with
  | Some (_ :: _) => true
  | Some [] => false
  | None => false
  end.

Definition behavior_of (pathPattern : jsstring) (b : BehaviorOptions) : Behavior :=
  {| pattern := pathPattern;
     originId := originId_of (origin b);
     behaviorCachePolicy := cachePolicy b;
     requireSignedToken := requires_signature b;
     requireHTTPS := viewerProtocolPolicy b |}.

(** The behaviour table of a distribution: the additional behaviours in
    the order they are declared, then the default behaviour. *)
Definition behavior_table (d : DistributionProps) : BehaviorTable :=
  {| behaviors := map (fun e => behavior_of (fst e) (snd e)) (additionalBehaviors d);
     tableDefault := behavior_of (lit "/*") (defaultBehavior d) |}.

(** Modelled from the spec: step 1 of [Resolve], "ensure leading [/], strip
    query string/fragment". *)
Fixpoint strip_query (path : jsstring) : jsstring :=
  match path with
  | [] => []
  | c :: rest =>
      if (c =? 63)%N || (c =? 35)%N then [] else c :: strip_query rest
  end.

Definition normalize (path : jsstring) : jsstring :=
  match strip_query path with
  | 47%N :: rest => 47%N :: rest
  | p => 47%N :: p
  end.

(** Modelled from the spec: step 2 of [Resolve], "exact-match if pattern has
    no trailing [*], else prefix-match against the pattern's literal
    prefix". *)
Definition pattern_matches (pat path : jsstring) : bool :=
  match rev pat with
  | 42%N :: rprefix => starts_with (rev rprefix) path
  | _ => jsstring_eqb pat path
  end.

(** Modelled from the spec: [Resolve] of section 4.2 (CloudFront does the
    matching, no code of the repository): scan the behaviours in declaration
    order, return the first match, and the default when none matches. *)
Definition Resolve (t : BehaviorTable) (path : jsstring) : Behavior :=
  match find (fun b => pattern_matches (pattern b) (normalize path)) (behaviors t) with
  | Some b => b
  | None => tableDefault t
  end.

(** Modelled from the spec: [Map] of section 4.4, read off the error
    responses the distribution is configured with: a configured origin status
    is answered with the configured status and page, "any other status passes
    through unchanged" (no page is substituted). *)
Definition Map (responses : list ErrorResponse) (originStatus : Z) : Z * option jsstring :=
  match find (fun r => (httpStatus r =? originStatus)%Z) responses with
  | Some r => (responseHttpStatus r, Some (responsePagePath r))
  | None => (originStatus, None)
  end.

(* ================================================================= *)
(** * Buffers and their encodings *)

(** A [Buffer] is its sequence of bytes. *)
Definition bytes := list Byte.byte.

Definition byte_of_N (n : N) : Byte.byte :=
  match Byte.of_N n with
  | Some b => b
  | None => Byte.x00
  end.

Definition is_high_surrogate (c : N) : bool := (0xD800 <=? c)%N && (c <=? 0xDBFF)%N.
Definition is_low_surrogate (c : N) : bool := (0xDC00 <=? c)%N && (c <=? 0xDFFF)%N.

(** The UTF-8 encoding of one code point. *)
Definition utf8_of_code_point (cp : N) : bytes :=
  if (cp <? 0x80)%N then
    [byte_of_N cp]
  else if (cp <? 0x800)%N then
    [byte_of_N (0xC0 + cp / 64); byte_of_N (0x80 + cp mod 64)]
  else if (cp <? 0x10000)%N then
    [byte_of_N (0xE0 + cp / 4096); byte_of_N (0x80 + (cp / 64) mod 64);
     byte_of_N (0x80 + cp mod 64)]
  else
    [byte_of_N (0xF0 + cp / 262144); byte_of_N (0x80 + (cp / 4096) mod 64);
     byte_of_N (0x80 + (cp / 64) mod 64); byte_of_N (0x80 + cp mod 64)].

(** U+FFFD, which stands for a surrogate that has no partner. *)
Definition replacement_character : bytes := [Byte.xef; Byte.xbf; Byte.xbd].

(** [Buffer.from(s)] (and what [Sign.update(s)] hashes): the UTF-8 encoding
    of the string. *)
Fixpoint Buffer_from (s : jsstring) : bytes :=
  match s with
  | [] => []
  | c :: rest =>
      if is_high_surrogate c then
        match rest with
        | d :: rest' =>
            if is_low_surrogate d
            then utf8_of_code_point (0x10000 + (c - 0xD800) * 0x400 + (d - 0xDC00))
                 ++ Buffer_from rest'
            else replacement_character ++ Buffer_from rest
        | [] => replacement_character
        end
      else if is_low_surrogate c then replacement_character ++ Buffer_from rest
      else utf8_of_code_point c ++ Buffer_from rest
  end.

Definition base64_alphabet : jsstring :=
  lit "ABCDEFGHIJKLMNOPQRSTUVWXYZabcdefghijklmnopqrstuvwxyz0123456789+/".

Definition base64url_alphabet : jsstring :=
  lit "ABCDEFGHIJKLMNOPQRSTUVWXYZabcdefghijklmnopqrstuvwxyz0123456789-_".

Definition sextet_char (alphabet : jsstring) (i : N) : N :=
  nth (N.to_nat i) alphabet 0%N.

(** RFC 4648 encoding over an alphabet: three bytes make four characters; a
    final group of one or two bytes makes two or three characters, followed
    by [pad] once per missing byte. *)
Fixpoint base64_encode (alphabet pad : jsstring) (b : bytes) : jsstring :=
  match b with
  | [] => []
  | [x] =>
      let x := Byte.to_N x in
      [sextet_char alphabet (x / 4); sextet_char alphabet ((x mod 4) * 16)]
      ++ pad ++ pad
  | [x; y] =>
      let x := Byte.to_N x in
      let y := Byte.to_N y in
      [sextet_char alphabet (x / 4);
       sextet_char alphabet ((x mod 4) * 16 + y / 16);
       sextet_char alphabet ((y mod 16) * 4)]
      ++ pad
  | x :: y :: z :: rest =>
      let x := Byte.to_N x in
      let y := Byte.to_N y in
      let z := Byte.to_N z in
      [sextet_char alphabet (x / 4);
       sextet_char alphabet ((x mod 4) * 16 + y / 16);
       sextet_char alphabet ((y mod 16) * 4 + z / 64);
       sextet_char alphabet (z mod 64)]
      ++ base64_encode alphabet pad rest
  end.

(** [buf.toString('base64')]. *)
Definition toString_base64 (b : bytes) : jsstring :=
  base64_encode base64_alphabet (lit "=") b.

(** The base64url encoding of RFC 4648 section 5, without padding. *)
Definition base64url (b : bytes) : jsstring :=
  base64_encode base64url_alphabet [] b.

(** [s.replace(/c/g, by)] for a pattern that is one character. *)
Definition replace_all (c : N) (replacement : jsstring) (s : jsstring) : jsstring :=
  flat_map (fun x => if (x =? c)%N then replacement else [x]) s.

(** The characters the regular expression [\s] matches: white space and
    line terminators. *)
Definition is_whitespace (c : N) : bool :=
  ((0x09 <=? c) && (c <=? 0x0D) || (c =? 0x20) || (c =? 0xA0) || (c =? 0x1680)
   || (0x2000 <=? c) && (c <=? 0x200A) || (c =? 0x2028) || (c =? 0x2029)
   || (c =? 0x202F) || (c =? 0x205F) || (c =? 0x3000) || (c =? 0xFEFF))%N.

(** [s.replace(/\s/g, '')]. *)
Definition remove_whitespace (s : jsstring) : jsstring :=
  filter (fun c => negb (is_whitespace c)) s.

(* ================================================================= *)
(** * JSON.stringify *)

#[warnings="-register-all"]
Inductive json : Type :=
| JString (s : jsstring)
| JNumber (n : Z)
| JArray (elements : list json)
| JObject (members : list (jsstring * json)).

Definition hex_digit (n : N) : N :=
  if (n <? 10)%N then (48 + n)%N else (87 + n)%N.

(** [\uXXXX], in lower-case hexadecimal. *)
Definition UnicodeEscape (c : N) : jsstring :=
  [92%N; 117%N; hex_digit (c / 4096); hex_digit ((c / 256) mod 16);
   hex_digit ((c / 16) mod 16); hex_digit (c mod 16)].

(** How [QuoteJSONString] writes a code unit that is no surrogate. *)
Definition quote_code_unit (c : N) : jsstring :=
  if (c =? 8)%N then lit "\b"
  else if (c =? 9)%N then lit "\t"
  else if (c =? 10)%N then lit "\n"
  else if (c =? 12)%N then lit "\f"
  else if (c =? 13)%N then lit "\r"
  else if (c =? 34)%N then [92%N; 34%N]
  else if (c =? 92)%N then [92%N; 92%N]
  else if (c <? 32)%N then UnicodeEscape c
  else [c].

(** The characters between the quotes: a surrogate pair is copied, a
    surrogate without partner is escaped. *)
Fixpoint quote_code_units (s : jsstring) : jsstring :=
  match s with
  | [] => []
  | c :: rest =>
      if is_high_surrogate c then
        match rest with
        | d :: rest' =>
            if is_low_surrogate d
            then c :: d :: quote_code_units rest'
            else UnicodeEscape c ++ quote_code_units rest
        | [] => UnicodeEscape c
        end
      else if is_low_surrogate c then UnicodeEscape c ++ quote_code_units rest
      else quote_code_unit c ++ quote_code_units rest
  end.

Definition QuoteJSONString (s : jsstring) : jsstring :=
  34%N :: quote_code_units s ++ [34%N].

Fixpoint decimal_digits (u : Decimal.uint) : jsstring :=
  match u with
  | Decimal.Nil => []
  | Decimal.D0 r => 48%N :: decimal_digits r
  | Decimal.D1 r => 49%N :: decimal_digits r
  | Decimal.D2 r => 50%N :: decimal_digits r
  | Decimal.D3 r => 51%N :: decimal_digits r
  | Decimal.D4 r => 52%N :: decimal_digits r
  | Decimal.D5 r => 53%N :: decimal_digits r
  | Decimal.D6 r => 54%N :: decimal_digits r
  | Decimal.D7 r => 55%N :: decimal_digits r
  | Decimal.D8 r => 56%N :: decimal_digits r
  | Decimal.D9 r => 57%N :: decimal_digits r
  end.

(** [Number.isSafeInteger(n)]: the integers of magnitude at most 2^53 - 1,
    which a Number holds exactly. *)
Definition Number_isSafeInteger (n : Z) : bool := (Z.abs n <=? 2 ^ 53 - 1)%Z.

(** The Number that stands for an integer: the integer itself up to 2^53,
    beyond that the nearest integer with 53 significant bits, a tie going to
    the even one (for a magnitude below 2^1024). *)
Definition Number_of_integer (z : Z) : Z :=
  let a := Z.abs z in
  if (a <=? 2 ^ 53)%Z then z
  else
    let e := (Z.log2 a - 52)%Z in
    let q := (a / 2 ^ e)%Z in
    let r := (a mod 2 ^ e)%Z in
    let half := (2 ^ (e - 1))%Z in
    let q := if (half <? r)%Z || ((r =? half)%Z && Z.odd q) then (q + 1)%Z else q in
    (Z.sgn z * (q * 2 ^ e))%Z.

(** [a + b] on Numbers that hold integers. *)
Definition Number_add (a b : Z) : Z := Number_of_integer (a + b).

(** [Number::toString] of a safe integer: its decimal digits, after a minus
    sign when it is negative.  (A Number beyond the safe integers is printed
    with the fewest digits that determine it, in exponent form from 10^21 on,
    which this function does not give.) *)
Definition Number_toString (n : Z) : jsstring :=
  match Z.to_int n with
  | Decimal.Pos u => decimal_digits u
  | Decimal.Neg u => 45%N :: decimal_digits u
  end.

(** [parts.join(',')]. *)
Fixpoint join_comma (parts : list jsstring) : jsstring :=
  match parts with
  | [] => []
  | [p] => p
  | p :: rest => p ++ 44%N :: join_comma rest
  end.

(** [JSON.stringify(v)] with no indentation. *)
Fixpoint JSON_stringify (v : json) : jsstring :=
  match v with
  | JString s => QuoteJSONString s
  | JNumber n => Number_toString n
  | JArray elements =>
      91%N :: join_comma (map JSON_stringify elements) ++ [93%N]
  | JObject members =>
      123%N :: join_comma (map (fun m => QuoteJSONString (fst m) ++ 58%N :: JSON_stringify (snd m))
                               members)
      ++ [125%N]
  end.

(* ================================================================= *)
(** * utils/signed-url-generator.ts *)

Module SignedURLGenerator.

Record t : Type := {
  privateKey : jsstring;
  publicKeyId : jsstring
}.

(** [new SignedURLGenerator(privateKeyPath, publicKeyId)], over the file
    system [readFileSync] reads ([None]: the read throws). *)
Definition new (readFileSync : jsstring -> option jsstring)
    (privateKeyPath publicKeyId : jsstring) : option t :=
  match readFileSync privateKeyPath with
  | Some pem => Some {| privateKey := pem; publicKeyId := publicKeyId |}
  | None => None
  end.

(** The object literal [policy]. *)
Definition policy (url : jsstring) (expires : Z) : json :=
  JObject
    [ (lit "Statement",
       JArray
         [ JObject
             [ (lit "Resource", JString url);
               (lit "Condition",
                JObject
                  [ (lit "DateLessThan",
                     JObject [ (lit "AWS:EpochTime", JNumber expires) ]) ]) ] ]) ].

(** The three replacements that make base64 text URL-safe:
    [.replace(/\+/g, '-').replace(/\//g, '_').replace(/=/g, '')]. *)
Definition url_safe (b64 : jsstring) : jsstring :=
  replace_all 61 [] (replace_all 47 (lit "_") (replace_all 43 (lit "-") b64)).

Section Signing.

(** [crypto.createSign('RSA-SHA1').update(data).sign(key)]: the RSA-SHA1
    signature of the data under a PEM private key, as raw bytes. *)
Variable rsa_sha1_sign : jsstring -> bytes -> bytes.

(** [Date.now()], in milliseconds since the epoch. *)
Variable Date_now : Z.

(** [Math.floor(Date.now() / 1000) + expiresIn], for a whole number of
    seconds [expiresIn]. *)
Definition expires (expiresIn : Z) : Z := Number_add (Date_now / 1000) expiresIn.

Definition policyString (url : jsstring) (expires : Z) : jsstring :=
  remove_whitespace (JSON_stringify (policy url expires)).

Definition policyBase64 (url : jsstring) (expires : Z) : jsstring :=
  url_safe (toString_base64 (Buffer_from (policyString url expires))).

Definition signature (self : t) (url : jsstring) (expires : Z) : jsstring :=
  url_safe (toString_base64
              (rsa_sha1_sign (privateKey self) (Buffer_from (policyString url expires)))).

(** [generateSignedURL(url, expiresIn = 3600)]. *)
Definition generateSignedURL (self : t) (url : jsstring) (expiresIn : option Z) : jsstring :=
  let expiresIn := match expiresIn with Some n => n | None => 3600%Z end in
  let expires := expires expiresIn in
  url ++ lit "?Policy=" ++ policyBase64 url expires
      ++ lit "&Signature=" ++ signature self url expires
      ++ lit "&Key-Pair-Id=" ++ publicKeyId self.

End Signing.

End SignedURLGenerator.

(* ================================================================= *)
(** * Signed access tokens as the specification describes them *)

Module SignedAccessToken.

Inductive SignError : Type := InvalidTTL.

Inductive AuthError : Type :=
| UnknownKey
| Malformed
| BadSignature
| Expired
| ResourceMismatch.

(** "Matches (or is a permitted prefix of, per configured matching mode)". *)
Inductive MatchingMode : Type := ExactResource | PrefixOfResource.

(** Modelled from the spec: the wire form of a token, "the triple
    (encodedPolicy, encodedSignature, keyPairId)", carried by the query
    parameters [Policy], [Signature] and [Key-Pair-Id]. *)
Record Wire : Type := {
  Policy : jsstring;
  Signature : jsstring;
  KeyPairId : jsstring
}.

(** A literal in which every apostrophe stands for a double quote. *)
Definition double_quoted (s : string) : jsstring :=
  map (fun c => if (c =? 39)%N then 34%N else c) (lit s).
Arguments double_quoted s%_string.

Definition document_head : jsstring :=
  double_quoted "{'Statement':[{'Resource':'".

Definition document_middle : jsstring :=
  double_quoted "','Condition':{'DateLessThan':{'AWS:EpochTime':".

Definition document_tail : jsstring :=
  lit "}}}]}".

(** Modelled from the spec: the canonical policy document of section 6, the
    resource URL and the expiry substituted in the fixed text. *)
Definition canonical_policy_document (url : jsstring) (expiresAt : Z) : jsstring :=
  document_head ++ url ++ document_middle ++ Number_toString expiresAt ++ document_tail.

(** Modelled from the spec: the canonical policy document "(JSON,
    whitespace-stripped)" of a resource and an expiry a verifier has decoded:
    the document of section 6, the resource written as a JSON string.  For a
    resource with no character that JSON escapes it is
    [canonical_policy_document] of the resource as given. *)
Definition canonical_policy_json (resource : jsstring) (expiresAt : Z) : jsstring :=
  canonical_policy_document (quote_code_units resource) expiresAt.

Definition sextet_of_char (c : N) : option N :=
  if ((65 <=? c) && (c <=? 90))%N then Some (c - 65)%N
  else if ((97 <=? c) && (c <=? 122))%N then Some (c - 71)%N
  else if ((48 <=? c) && (c <=? 57))%N then Some (c + 4)%N
  else if (c =? 45)%N then Some 62%N
  else if (c =? 95)%N then Some 63%N
  else None.

(** Modelled from the spec: decoding of unpadded base64url text; [None]
    when a character is outside the alphabet or a group has one character. *)
Fixpoint base64url_decode (s : jsstring) : option bytes :=
  match s with
  | [] => Some []
  | [_] => None
  | [a; b] =>
      match sextet_of_char a, sextet_of_char b with
      | Some a, Some b => Some [byte_of_N (a * 4 + b / 16)]
      | _, _ => None
      end
  | [a; b; c] =>
      match sextet_of_char a, sextet_of_char b, sextet_of_char c with
      | Some a, Some b, Some c =>
          Some [byte_of_N (a * 4 + b / 16); byte_of_N ((b mod 16) * 16 + c / 4)]
      | _, _, _ => None
      end
  | a :: b :: c :: d :: rest =>
      match sextet_of_char a, sextet_of_char b, sextet_of_char c, sextet_of_char d,
            base64url_decode rest with
      | Some a, Some b, Some c, Some d, Some tl =>
          Some (byte_of_N (a * 4 + b / 16) :: byte_of_N ((b mod 16) * 16 + c / 4)
                :: byte_of_N ((c mod 4) * 64 + d) :: tl)
      | _, _, _, _, _ => None
      end
  end.

(** A byte that continues a UTF-8 sequence. *)
Definition continuation (b : N) : bool := ((0x80 <=? b) && (b <? 0xC0))%N.

(** The UTF-16 code units of a code point. *)
Definition utf16_of_code_point (cp : N) : jsstring :=
  if (cp <? 0x10000)%N then [cp]
  else [(0xD800 + (cp - 0x10000) / 0x400)%N; (0xDC00 + (cp - 0x10000) mod 0x400)%N].

(** Modelled from the spec: the text of a decoded policy, the bytes read as
    UTF-8; [None] for bytes that are no UTF-8 text (a sequence cut short, a
    wrong continuation byte, an over-long form, an encoded surrogate, a code
    point past U+10FFFF). *)
Fixpoint utf8_decode (b : bytes) : option jsstring :=
  match b with
  | [] => Some []
  | x :: r =>
      let x := Byte.to_N x in
      if (x <? 0x80)%N then option_map (cons x) (utf8_decode r)
      else if (x <? 0xC0)%N then None
      else if (x <? 0xE0)%N then
        match r with
        | y :: r' =>
            let y := Byte.to_N y in
            let cp := ((x - 0xC0) * 64 + (y - 0x80))%N in
            if continuation y && (0x80 <=? cp)%N
            then option_map (cons cp) (utf8_decode r')
            else None
        | _ => None
        end
      else if (x <? 0xF0)%N then
        match r with
        | y :: z :: r' =>
            let y := Byte.to_N y in
            let z := Byte.to_N z in
            let cp := ((x - 0xE0) * 4096 + (y - 0x80) * 64 + (z - 0x80))%N in
            if continuation y && continuation z && (0x800 <=? cp)%N
               && negb (is_high_surrogate cp) && negb (is_low_surrogate cp)
            then option_map (cons cp) (utf8_decode r')
            else None
        | _ => None
        end
      else if (x <? 0xF8)%N then
        match r with
        | y :: z :: w :: r' =>
            let y := Byte.to_N y in
            let z := Byte.to_N z in
            let w := Byte.to_N w in
            let cp := ((x - 0xF0) * 262144 + (y - 0x80) * 4096 + (z - 0x80) * 64
                       + (w - 0x80))%N in
            if continuation y && continuation z && continuation w
               && (0x10000 <=? cp)%N && (cp <? 0x110000)%N
            then option_map (app (utf16_of_code_point cp)) (utf8_decode r')
            else None
        | _ => None
        end
      else None
  end.

(** What is left of a text after a prefix; [None] when it does not start
    with the prefix. *)
Fixpoint strip_prefix (p s : jsstring) : option jsstring :=
  match p, s with
  | [], _ => Some s
  | x :: p', y :: s' => if (x =? y)%N then strip_prefix p' s' else None
  | _ :: _, [] => None
  end.

Definition hex_value (c : N) : option N :=
  if ((48 <=? c) && (c <=? 57))%N then Some (c - 48)%N
  else if ((97 <=? c) && (c <=? 102))%N then Some (c - 87)%N
  else if ((65 <=? c) && (c <=? 70))%N then Some (c - 55)%N
  else None.

(** The character a two-character escape of JSON stands for. *)
Definition simple_escape (c : N) : option N :=
  if (c =? 34)%N then Some 34%N
  else if (c =? 92)%N then Some 92%N
  else if (c =? 47)%N then Some 47%N
  else if (c =? 98)%N then Some 8%N
  else if (c =? 102)%N then Some 12%N
  else if (c =? 110)%N then Some 10%N
  else if (c =? 114)%N then Some 13%N
  else if (c =? 116)%N then Some 9%N
  else None.

(** The character [c] in front of what was read after it. *)
Definition unquoted (c : N) (read : option (jsstring * jsstring))
  : option (jsstring * jsstring) :=
  match read with
  | Some (t, rest) => Some (c :: t, rest)
  | None => None
  end.

(** Modelled from the spec: reading a JSON string whose opening quote has
    been read: its characters, escapes undone, up to the closing quote, and
    the text after that quote; [None] when the string does not end, an escape
    is none of JSON's, or a control character stands unescaped. *)
Fixpoint unquote (s : jsstring) : option (jsstring * jsstring) :=
  match s with
  | [] => None
  | c :: r =>
      if (c =? 34)%N then Some ([], r)
      else if (c =? 92)%N then
        match r with
        | e :: r1 =>
            if (e =? 117)%N then
              match r1 with
              | h1 :: h2 :: h3 :: h4 :: r2 =>
                  match hex_value h1, hex_value h2, hex_value h3, hex_value h4 with
                  | Some a, Some b, Some c, Some d =>
                      unquoted (a * 4096 + b * 256 + c * 16 + d)%N (unquote r2)
                  | _, _, _, _ => None
                  end
              | _ => None
              end
            else
              match simple_escape e with
              | Some x => unquoted x (unquote r1)
              | None => None
              end
        | [] => None
        end
      else if (c <? 32)%N then None
      else unquoted c (unquote r)
  end.

Definition is_digit (c : N) : bool := ((48 <=? c) && (c <=? 57))%N.

(** The longest run of digits at the front, and what follows it. *)
Fixpoint span_digits (s : jsstring) : jsstring * jsstring :=
  match s with
  | [] => ([], [])
  | x :: r =>
      if is_digit x
      then let (d, rest) := span_digits r in (x :: d, rest)
      else ([], s)
  end.

Fixpoint uint_of_digits (d : jsstring) : option Decimal.uint :=
  match d with
  | [] => Some Decimal.Nil
  | x :: r =>
      match uint_of_digits r with
      | None => None
      | Some u =>
          match x with
          | 48%N => Some (Decimal.D0 u)
          | 49%N => Some (Decimal.D1 u)
          | 50%N => Some (Decimal.D2 u)
          | 51%N => Some (Decimal.D3 u)
          | 52%N => Some (Decimal.D4 u)
          | 53%N => Some (Decimal.D5 u)
          | 54%N => Some (Decimal.D6 u)
          | 55%N => Some (Decimal.D7 u)
          | 56%N => Some (Decimal.D8 u)
          | 57%N => Some (Decimal.D9 u)
          | _ => None
          end
      end
  end.

(** The integer a non-empty run of digits writes. *)
Definition integer_of_digits (negative : bool) (d : jsstring) : option Z :=
  match d, uint_of_digits d with
  | _ :: _, Some u =>
      Some (Z.of_int (if negative then Decimal.Neg u else Decimal.Pos u))
  | _, _ => None
  end.

(** An integer at the front of a text, and what follows it. *)
Definition read_integer (s : jsstring) : option (Z * jsstring) :=
  let (negative, s) :=
    match s with
    | x :: s' => if (x =? 45)%N then (true, s') else (false, s)
    | [] => (false, s)
    end in
  let (digits, rest) := span_digits s in
  match integer_of_digits negative digits with
  | Some n => Some (n, rest)
  | None => None
  end.

(** Modelled from the spec: decoding of a policy document into "the
    token's decoded fields", the resource URL and the expiry.  The bytes are
    read as UTF-8 text; the text is the fixed head, the resource as a JSON
    string, the fixed middle, the expiry as an integer, and the fixed tail,
    with nothing after it. *)
Definition parse_policy (doc : bytes) : option (jsstring * Z) :=
  match utf8_decode doc with
  | None => None
  | Some text =>
      match strip_prefix document_head text with
      | None => None
      | Some text =>
          match unquote text with
          | None => None
          | Some (resource, text) =>
              match strip_prefix (tl document_middle) text with
              | None => None
              | Some text =>
                  match read_integer text with
                  | None => None
                  | Some (expiresAt, text) =>
                      if jsstring_eqb text document_tail
                      then Some (resource, expiresAt)
                      else None
                  end
              end
          end
      end
  end.

(** Modelled from the spec: the embedded resource "matches (or is a
    permitted prefix of, per configured matching mode)" the requested one. *)
Definition resource_matches (mode : MatchingMode) (embedded requested : jsstring) : bool :=
  match mode with
  | ExactResource => jsstring_eqb embedded requested
  | PrefixOfResource => starts_with embedded requested
  end.

(** The text before the first [c], and the text after that [c] when there
    is one. *)
Fixpoint cut (c : N) (s : jsstring) : jsstring * option jsstring :=
  match s with
  | [] => ([], None)
  | x :: r =>
      if (x =? c)%N then ([], Some r)
      else let (before, after) := cut c r in (x :: before, after)
  end.

(** The pieces of a text between the occurrences of [c]. *)
Fixpoint split_on (c : N) (s : jsstring) : list jsstring :=
  match s with
  | [] => [[]]
  | x :: r =>
      if (x =? c)%N then [] :: split_on c r
      else
        match split_on c r with
        | piece :: pieces => (x :: piece) :: pieces
        | [] => [[x]]
        end
  end.

(** Modelled from the spec: the query of a URL, where section 6 puts the
    token: what stands between the first [?] and the first [#]; [None] when
    no [?] stands before the first [#]. *)
Definition query_of (url : jsstring) : option jsstring :=
  snd (cut 63 (fst (cut 35 url))).

(** The parameters of a query, [name=value] between [&]. *)
Definition parameters (query : jsstring) : list (jsstring * jsstring) :=
  map (fun piece =>
         let (name, value) := cut 61 piece in
         (name, match value with Some v => v | None => [] end))
      (split_on 38 query).

Fixpoint parameter (name : jsstring) (ps : list (jsstring * jsstring)) : option jsstring :=
  match ps with
  | [] => None
  | (n, v) :: rest => if jsstring_eqb n name then Some v else parameter name rest
  end.

(** Modelled from the spec: the token a signed URL presents, its "query
    parameters [Policy], [Signature], [Key-Pair-Id]" (section 6); [None] when
    one of them is missing. *)
Definition read_token (signedURL : jsstring) : option Wire :=
  match query_of signedURL with
  | None => None
  | Some query =>
      let ps := parameters query in
      match parameter (lit "Policy") ps, parameter (lit "Signature") ps,
            parameter (lit "Key-Pair-Id") ps with
      | Some p, Some s, Some k => Some {| Policy := p; Signature := s; KeyPairId := k |}
      | _, _, _ => None
      end
  end.

Section Verifier.

(** Public keys, and RSA-SHA1 verification of a signature over a message. *)
Variable Key : Type.
Variable rsa_sha1_verify : Key -> bytes -> bytes -> bool.

(** The trusted key provider of section 6. *)
Variable PublicKeyFor : jsstring -> option Key.

Variable mode : MatchingMode.

(** [now()], in seconds since the epoch. *)
Variable now : Z.

(** Modelled from the spec: [Verify] of section 4.3, steps 1 to 5 (the
    repository has no verifier: CloudFront checks the tokens). *)
Definition Verify (token : Wire) (resourceURL : jsstring) : AuthError + unit :=
  match PublicKeyFor (KeyPairId token) with
  | None => inl UnknownKey
  | Some key =>
      match base64url_decode (Policy token), base64url_decode (Signature token) with
      | Some doc, Some sig =>
          match parse_policy doc with
          | None => inl Malformed
          | Some (resource, expiresAt) =>
              if negb (rsa_sha1_verify key
                         (Buffer_from (canonical_policy_json resource expiresAt)) sig)
              then inl BadSignature
              else if negb (now <=? expiresAt)%Z then inl Expired
              else if negb (resource_matches mode resource resourceURL)
              then inl ResourceMismatch
              else inr tt
          end
      | _, _ => inl Malformed
      end
  end.

(** Modelled from the spec: [Verify] of what a signed URL presents; a URL
    that presents no token is refused as [Malformed]. *)
Definition Verify_signed_URL (signedURL resourceURL : jsstring) : AuthError + unit :=
  match read_token signedURL with
  | None => inl Malformed
  | Some token => Verify token resourceURL
  end.

End Verifier.

Section Issuer.

Variable rsa_sha1_sign : jsstring -> bytes -> bytes.
Variable Date_now : Z.

(** [Sign(resourceURL, ttl, privateKey, keyPairId)] is a call of
    [generateSignedURL] on the generator that holds the key and its
    identifier.  The method has no guard and no [throw]: the call returns
    its string. *)
Definition Sign (url : jsstring) (ttl : Z) (privateKey keyPairId : jsstring)
  : SignError + jsstring :=
  inr (SignedURLGenerator.generateSignedURL rsa_sha1_sign Date_now
         {| SignedURLGenerator.privateKey := privateKey;
            SignedURLGenerator.publicKeyId := keyPairId |}
         url (Some ttl)).

End Issuer.

Section RoundTrip.

Variable rsa_sha1_sign : jsstring -> bytes -> bytes.
Variable Key : Type.
Variable rsa_sha1_verify : Key -> bytes -> bytes -> bool.
Variable PublicKeyFor : jsstring -> option Key.
Variable mode : MatchingMode.

(** [Date.now()] when the token is signed and when it is verified. *)
Variable Date_now : Z.

(** [Verify(Sign(url, ttl, priv, kid), url, pub)] at the time of signing,
    [pub] being the key the provider holds under [kid]: the URL that [Sign]
    returns is presented to the verifier for the resource [url]. *)
Definition Verify_Sign (url : jsstring) (ttl : Z) (priv kid : jsstring)
  : SignError + (AuthError + unit) :=
  match Sign rsa_sha1_sign Date_now url ttl priv kid with
  | inl e => inl e
  | inr signedURL =>
      inr (Verify_signed_URL Key rsa_sha1_verify PublicKeyFor mode (Date_now / 1000)
             signedURL url)
  end.

End RoundTrip.

(** A public key matches a private key when every signature made with the
    private key verifies under the public key. *)
Definition keys_match {Key : Type}
    (rsa_sha1_sign : jsstring -> bytes -> bytes)
    (rsa_sha1_verify : Key -> bytes -> bytes -> bool)
    (priv : jsstring) (pub : Key) : Prop :=
  forall message, rsa_sha1_verify pub message (rsa_sha1_sign priv message) = true.

End SignedAccessToken.

(** The part of a URL that its policy document carries: the JSON text of
    the string, white space removed. *)
Definition carried (url : jsstring) : jsstring :=
  remove_whitespace (quote_code_units url).

(** The URL has no character that [JSON.stringify] escapes (a control
    character, a double quote, a backslash, a surrogate without partner) and
    no character that [\s] matches. *)
Fixpoint json_verbatim (s : jsstring) : bool :=
  match s with
  | [] => true
  | c :: rest =>
      if is_high_surrogate c then
        match rest with
        | d :: rest' => is_low_surrogate d && json_verbatim rest'
        | [] => false
        end
      else
        negb (is_low_surrogate c) && negb ((c <? 32)%N || (c =? 34)%N || (c =? 92)%N)
        && negb (is_whitespace c) && json_verbatim rest
  end.

(** Every element is a UTF-16 code unit, as in every string of the
    language. *)
Definition is_jsstring (s : jsstring) : bool := forallb (fun c => (c <? 0x10000)%N) s.

(** The text is well-formed UTF-16: code units, every surrogate in a
    pair. *)
Fixpoint utf16_well_formed (s : jsstring) : bool :=
  match s with
  | [] => true
  | c :: rest =>
      if is_high_surrogate c then
        match rest with
        | d :: rest' => is_low_surrogate d && utf16_well_formed rest'
        | [] => false
        end
      else negb (is_low_surrogate c) && (c <? 0x10000)%N && utf16_well_formed rest
  end.

(** White space that JSON leaves as it is: a white-space character from
    U+0020 on. *)
Definition unescaped_whitespace (w : N) : bool :=
  is_whitespace w && (32 <=? w)%N.

(** The string has no such character: none that the removal of white space
    takes out of the policy. *)
Definition keeps_its_characters (s : jsstring) : bool :=
  forallb (fun c => negb (unescaped_whitespace c)) s.

(** The character does not occur in the string. *)
Definition lacks (c : N) (s : jsstring) : bool := forallb (fun x => negb (x =? c)%N) s.

(** A signature scheme to run the definitions on: the signature of a message
    under a key is the key's bytes followed by the message. *)
Definition demo_sign (key : jsstring) (message : bytes) : bytes :=
  Buffer_from key ++ message.

Fixpoint bytes_eqb (a b : bytes) : bool :=
  match a, b with
  | [], [] => true
  | x :: a', y :: b' => Byte.eqb x y && bytes_eqb a' b'
  | _, _ => false
  end.

Definition demo_verify (key : jsstring) (message sig : bytes) : bool :=
  bytes_eqb (Buffer_from key ++ message) sig.

(** A key provider that trusts one key. *)
Definition demo_keys (keyPairId : jsstring) : option jsstring :=
  if jsstring_eqb keyPairId (lit "K2EXAMPLE123456") then Some (lit "PEM") else None.

(** A key provider that trusts one key under an identifier with an
    ampersand. *)
Definition demo_odd_keys (keyPairId : jsstring) : option jsstring :=
  if jsstring_eqb keyPairId (lit "K2&EXAMPLE") then Some (lit "PEM") else None.

Definition demo_generator : SignedURLGenerator.t :=
  {| SignedURLGenerator.privateKey := lit "PEM";
     SignedURLGenerator.publicKeyId := lit "K2EXAMPLE123456" |}.

(* ================================================================= *)
(** * Predicates and sample values the statements use *)

(** The table CloudFront resolves requests against. *)
Definition table_of (props : WebUIProps) : BehaviorTable :=
  behavior_table (new_websiteDistribution props).

(** No declared pattern matches the path. *)
Definition matches_no_pattern (t : BehaviorTable) (path : jsstring) : Prop :=
  Forall (fun b => pattern_matches (pattern b) (normalize path) = false) (behaviors t).

(** A deployment that sets [AppsLoginUrl]. *)
Definition apps_props : WebUIProps :=
  with_AppsLoginUrl (Some (lit "https://apps.example.com/login")) bin_props.

(** A second deployment, with another [AppsLoginUrl]. *)
Definition other_apps_props : WebUIProps :=
  with_AppsLoginUrl (Some (lit "javascript:alert(1)")) bin_props.

(** The durations satisfy the invariant of section 3. *)
Definition ttl_invariant (v : CachePolicyValue) : Prop :=
  (0 <= minTTL v /\ minTTL v <= defaultTTL v /\ defaultTTL v <= maxTTL v)%Z.

(** Two sets of properties that agree on everything but [AppsLoginUrl]. *)
Definition same_but_AppsLoginUrl (p q : WebUIProps) : Prop :=
  deploymentName p = deploymentName q /\
  aliases p = aliases q /\
  acmCertificateArn p = acmCertificateArn q /\
  viewersPublicKeyId p = viewersPublicKeyId q /\
  loginBucketName p = loginBucketName q /\
  OriginAccessIdentityName p = OriginAccessIdentityName q /\
  OriginAccessIdentityCanonicalUserId p = OriginAccessIdentityCanonicalUserId q.

(** The behaviour is served from the login bucket. *)
Definition served_from_login (b : BehaviorOptions) : bool :=
  match originId_of (origin b) with
  | Login => true
  | Website => false
  end.

(** The text is ASCII. *)
Definition is_ascii (s : jsstring) : bool := forallb (fun c => (c <? 128)%N) s.

(* ================================================================= *)
(** * lib/nerdiyland-web-ui-stack.ts and bin/aws-web-ui.ts *)

Module NerdiylandWebUi.

(** The [StackProps] the examples pass on to [Stack]. *)
Record StackProps : Type := {
  stackName : option jsstring;
  description : option jsstring;
  terminationProtection : option bool;
  tags : list (jsstring * jsstring)
}.

Record Props : Type := {
  stackProps : StackProps;
  certificateArn : jsstring;
  deliveryAliases : option (list jsstring);
  viewersPublicKeyId : jsstring;
  loginBucketName : jsstring;
  originAccessIdentityName : jsstring;
  originAccessIdentityCanonicalUserId : jsstring
}.

Record t : Type := {
  stack : StackProps;
  webUi : WebUI
}.

(** The properties the stack hands to [new WebUI(this, 'WebUi', ...)]. *)
Definition webUi_props (props : Props) : WebUIProps :=
  Build_WebUIProps
    None                                          (* deploymentName: not passed *)
    (deliveryAliases props)                       (* aliases *)
    (Some (certificateArn props))                 (* acmCertificateArn *)
    (viewersPublicKeyId props)                    (* viewersPublicKeyId *)
    (loginBucketName props)                       (* loginBucketName *)
    (originAccessIdentityName props)              (* OriginAccessIdentityName *)
    (originAccessIdentityCanonicalUserId props)   (* OriginAccessIdentityCanonicalUserId *)
    None.                                         (* AppsLoginUrl: not passed *)

(** [new NerdiylandWebUi(scope, id, props)]. *)
Definition new (props : Props) : t :=
  {| stack := stackProps props;
     webUi := new_WebUI (webUi_props props) |}.

(** The properties of [bin/aws-web-ui.ts]: every string is empty. *)
Definition bin : Props :=
  {| stackProps := {| stackName := None; description := None;
                      terminationProtection := None; tags := [] |};
     certificateArn := [];
     deliveryAliases := None;
     viewersPublicKeyId := [];
     loginBucketName := [];
     originAccessIdentityName := [];
     originAccessIdentityCanonicalUserId := [] |}.

End NerdiylandWebUi.

(** The same properties with another [deploymentName]. *)
Definition with_deploymentName (v : option jsstring) (p : WebUIProps) : WebUIProps :=
  {| deploymentName := v;
     aliases := aliases p;
     acmCertificateArn := acmCertificateArn p;
     viewersPublicKeyId := viewersPublicKeyId p;
     loginBucketName := loginBucketName p;
     OriginAccessIdentityName := OriginAccessIdentityName p;
     OriginAccessIdentityCanonicalUserId := OriginAccessIdentityCanonicalUserId p;
     AppsLoginUrl := AppsLoginUrl p |}.

(** Every behaviour the distribution declares, the default one under the
    catch-all pattern. *)
Definition all_behaviors (d : DistributionProps) : list (jsstring * BehaviorOptions) :=
  (lit "/*", defaultBehavior d) :: additionalBehaviors d.

(** The text after the inserted character starts with no low surrogate. *)
Definition starts_clean (b : jsstring) : Prop :=
  match b with
  | [] => True
  | c :: _ => is_low_surrogate c = false
  end.

(** The characters of a printed integer. *)
Definition number_char (c : N) : bool :=
  ((48 <=? c) && (c <=? 57) || (c =? 45))%N.

(* ================================================================= *)
(** * middleware/auth-middleware.ts *)

Module AuthMiddleware.

Record User : Type := {
  id : jsstring;
  email : jsstring;
  roles : list jsstring
}.

(** [req.cookies], of which the middleware reads [token]. *)
Record Cookies : Type := {
  token : option jsstring
}.

(** The parts of a request the middleware reads and writes:
    [req.headers.authorization], [req.cookies] ([None] when no cookie parser
    has run) and [req.user]. *)
Record Request : Type := {
  authorization : option jsstring;
  cookies : option Cookies;
  user : option User
}.

(** What a handler does with a request: it answers
    [res.status(status).json({ error })], or it calls [next()]. *)
Inductive Outcome : Type :=
| Responded (status : Z) (error : jsstring)
| Next (req : Request).

Record t : Type := {
  jwtSecret : jsstring
}.

(** [req.cookies?.token || null]. *)
Definition cookie_token (req : Request) : option jsstring :=
  match cookies req with
  | Some c =>
      match token c with
      | Some (x :: tok) => Some (x :: tok)
      | Some [] => None
      | None => None
      end
  | None => None
  end.

Definition extractToken (req : Request) : option jsstring :=
  match authorization req with
  | Some authHeader =>
      if truthy (Some authHeader) && starts_with (lit "Bearer ") authHeader
      then Some (skipn 7 authHeader)
      else cookie_token req
  | None => cookie_token req
  end.

Definition set_user (u : User) (req : Request) : Request :=
  {| authorization := authorization req; cookies := cookies req; user := Some u |}.

Section Handlers.

(** [jwt.verify(token, secret)]: the decoded payload, [None] when it
    throws. *)
Variable jwt_verify : jsstring -> jsstring -> option User.

Definition authenticate (self : t) (req : Request) : Outcome :=
  match extractToken req with
  | None => Responded 401 (lit "No token provided")
  | Some [] => Responded 401 (lit "No token provided")
  | Some (x :: tok) =>
      match jwt_verify (x :: tok) (jwtSecret self) with
      | Some decoded => Next (set_user decoded req)
      | None => Responded 401 (lit "Invalid token")
      end
  end.

Definition authorize (required : list jsstring) (req : Request) : Outcome :=
  match user req with
  | None => Responded 401 (lit "Not authenticated")
  | Some u =>
      let hasRole :=
        existsb (fun role => existsb (fun r => jsstring_eqb r role) (roles u)) required in
      if negb hasRole
      then Responded 403 (lit "Insufficient permissions")
      else Next req
  end.

(** [app.use(path, first, second)]: the second handler runs when the first
    calls [next()]. *)
Definition use2 (first second : Request -> Outcome) (req : Request) : Outcome :=
  match first req with
  | Next req' => second req'
  | Responded status error => Responded status error
  end.

End Handlers.

End AuthMiddleware.

(* ================================================================= *)
(** * utils/smart-invalidator.ts *)

Module SmartCacheInvalidator.

(** [a.slice(start, end)] for integer bounds: a negative bound counts from
    the end, and both are clamped to the array. *)
Definition slice {A : Type} (a : list A) (start final : Z) : list A :=
  let len := Z.of_nat (List.length a) in
  let k := if (start <? 0)%Z then Z.max (len + start) 0 else Z.min start len in
  let e := if (final <? 0)%Z then Z.max (len + final) 0 else Z.min final len in
  firstn (Z.to_nat (e - k)) (skipn (Z.to_nat k) a).

(** The loop of [createInvalidationBatches], from index [i] on, with the
    batches pushed so far.  [fuel] bounds the number of tests of the loop
    condition; [None]: the loop has not ended within it. *)
Fixpoint batches_from (fuel : nat) (files : list jsstring) (batchSize i : Z)
    (batches : list (list jsstring)) : option (list (list jsstring)) :=
  match fuel with
  | O => None
  | S fuel' =>
      if (i <? Z.of_nat (List.length files))%Z
      then batches_from fuel' files batchSize (i + batchSize)
             (batches ++ [slice files i (i + batchSize)])
      else Some batches
  end.

(** [createInvalidationBatches(files, batchSize = 100)]. *)
Definition createInvalidationBatches (fuel : nat) (files : list jsstring)
    (batchSize : option Z) : option (list (list jsstring)) :=
  let batchSize := match batchSize with Some n => n | None => 100%Z end in
  batches_from fuel files batchSize 0 [].

(** [getChangedFiles(bucketName, previousTag)]. *)
Definition getChangedFiles (bucketName : jsstring) (previousTag : option jsstring)
  : list jsstring :=
  if negb (truthy previousTag) then [lit "/*"] else [].

(** [new CreateInvalidationCommand({ DistributionId, InvalidationBatch })]. *)
Record CreateInvalidationCommand : Type := {
  DistributionId : jsstring;
  CallerReference : jsstring;
  Quantity : Z;
  Items : list jsstring
}.

Section Client.

(** The world the calls act on: the CloudFront client answers a command
    with an invalidation id, the clock and the random generator are read,
    timers are awaited and the console is written. *)
Variable World : Type.
Variable send : CreateInvalidationCommand -> World -> jsstring * World.
Variable Date_now : World -> Z.
Variable Math_random : World -> jsstring * World.
Variable setTimeout : Z -> World -> World.
Variable console_log : jsstring -> World -> World.

(** [invalidateCache(distributionId, paths)]; [Math_random] gives the text
    of the number drawn. *)
Definition invalidateCache (distributionId : jsstring) (paths : list jsstring)
    (w : World) : jsstring * World :=
  let now := Date_now w in
  let (random, w) := Math_random w in
  send {| DistributionId := distributionId;
          CallerReference := lit "smart-invalidation-" ++ Number_toString now
                             ++ lit "-" ++ random;
          Quantity := Z.of_nat (List.length paths);
          Items := paths |} w.

(** The [for (const batch of batches)] loop of [invalidateChangedFiles]. *)
Fixpoint invalidate_batches (distributionId : jsstring) (batches : list (list jsstring))
    (invalidationIds : list jsstring) (w : World) : list jsstring * World :=
  match batches with
  | [] => (invalidationIds, w)
  | batch :: rest =>
      let (invalidationId, w) := invalidateCache distributionId batch w in
      let w := setTimeout 1000 w in
      invalidate_batches distributionId rest (invalidationIds ++ [invalidationId]) w
  end.

(** [invalidateChangedFiles(bucketName, distributionId, previousDeploymentTag)]. *)
Definition invalidateChangedFiles (fuel : nat) (bucketName distributionId : jsstring)
    (previousDeploymentTag : option jsstring) (w : World)
  : option (list jsstring * World) :=
  let changedFiles := getChangedFiles bucketName previousDeploymentTag in
  match changedFiles with
  | [] => Some ([], console_log (lit "No files changed, skipping invalidation") w)
  | _ :: _ =>
      match createInvalidationBatches fuel changedFiles None with
      | None => None
      | Some batches => Some (invalidate_batches distributionId batches [] w)
      end
  end.

End Client.

End SmartCacheInvalidator.

(* ================================================================= *)
(** * Regular expressions, as far as the validator uses them *)

Module RegExp.

(** A pattern over code units: a character class, sequence, alternative
    and repetition. *)
Inductive t : Type :=
| Empty
| Eps
| Class (p : N -> bool)
| Seq (r1 r2 : t)
| Alt (r1 r2 : t)
| Star (r : t).

Definition Char (c : N) : t := Class (N.eqb c).

(** [r+]. *)
Definition Plus (r : t) : t := Seq r (Star r).

(** [r{n}]. *)
Fixpoint Times (n : nat) (r : t) : t :=
  match n with
  | O => Eps
  | S n' => Seq r (Times n' r)
  end.

(** [r{n,}]. *)
Definition AtLeast (n : nat) (r : t) : t := Seq (Times n r) (Star r).

(** The literal text [s]. *)
Fixpoint Text (s : jsstring) : t :=
  match s with
  | [] => Eps
  | c :: rest => Seq (Char c) (Text rest)
  end.

Definition in_range (lo hi c : N) : bool := ((lo <=? c) && (c <=? hi))%N.

Fixpoint nullable (r : t) : bool :=
  match r with
  | Empty => false
  | Eps => true
  | Class _ => false
  | Seq r1 r2 => nullable r1 && nullable r2
  | Alt r1 r2 => nullable r1 || nullable r2
  | Star _ => true
  end.

(** What is left to match after the code unit [c]. *)
Fixpoint derive (c : N) (r : t) : t :=
  match r with
  | Empty => Empty
  | Eps => Empty
  | Class p => if p c then Eps else Empty
  | Seq r1 r2 =>
      if nullable r1
      then Alt (Seq (derive c r1) r2) (derive c r2)
      else Seq (derive c r1) r2
  | Alt r1 r2 => Alt (derive c r1) (derive c r2)
  | Star r1 => Seq (derive c r1) (Star r1)
  end.

(** [s.match(/^r$/)] is not [null]: the whole string matches [r]. *)
Fixpoint test (r : t) (s : jsstring) : bool :=
  match s with
  | [] => nullable r
  | c :: rest => test (derive c r) rest
  end.

(** The strings a pattern stands for. *)
Fixpoint language (r : t) (s : jsstring) : Prop :=
  match r with
  | Empty => False
  | Eps => s = []
  | Class p => exists c, s = [c] /\ p c = true
  | Seq r1 r2 => exists s1 s2, s = s1 ++ s2 /\ language r1 s1 /\ language r2 s2
  | Alt r1 r2 => language r1 s \/ language r2 s
  | Star r1 => exists parts, s = List.concat parts /\ Forall (language r1) parts
  end.

End RegExp.

(* ================================================================= *)
(** * config/environments.ts and utils/config-validator.ts *)

Module ConfigValidator.

Record EnvironmentConfig : Type := {
  certificateArn : jsstring;
  loginBucketName : jsstring;
  originAccessIdentityCanonicalUserId : jsstring;
  originAccessIdentityName : jsstring;
  viewersPublicKeyId : jsstring;
  deliveryAliases : option (list jsstring);
  terminationProtection : option bool;
  priceClass : option jsstring
}.

Definition upper_or_digit (c : N) : bool :=
  RegExp.in_range 65 90 c || RegExp.in_range 48 57 c.

Definition bucket_char (c : N) : bool :=
  RegExp.in_range 97 122 c || RegExp.in_range 48 57 c || (c =? 46)%N || (c =? 45)%N.

Definition domain_char (c : N) : bool :=
  RegExp.in_range 97 122 c || RegExp.in_range 65 90 c || RegExp.in_range 48 57 c
  || (c =? 46)%N || (c =? 45)%N.

Definition letter (c : N) : bool :=
  RegExp.in_range 97 122 c || RegExp.in_range 65 90 c.

(** [/^K2[A-Z0-9]{10,}$/]. *)
Definition public_key_id_pattern : RegExp.t :=
  RegExp.Seq (RegExp.Text (lit "K2")) (RegExp.AtLeast 10 (RegExp.Class upper_or_digit)).

(** [/^[a-z0-9.-]+$/]. *)
Definition bucket_name_pattern : RegExp.t :=
  RegExp.Plus (RegExp.Class bucket_char).

(** [/^[a-zA-Z0-9.-]+\.[a-zA-Z]{2,}$/]. *)
Definition domain_pattern : RegExp.t :=
  RegExp.Seq (RegExp.Plus (RegExp.Class domain_char))
    (RegExp.Seq (RegExp.Char 46) (RegExp.AtLeast 2 (RegExp.Class letter))).

(** The [forEach] over [deliveryAliases]. *)
Fixpoint domain_errors (domains : list jsstring) : list jsstring :=
  match domains with
  | [] => []
  | domain :: rest =>
      (if negb (RegExp.test domain_pattern domain)
       then [lit "Invalid domain format: " ++ domain]
       else [])
      ++ domain_errors rest
  end.

(** The [errors] array at the end of [validate]. *)
Definition errors (config : EnvironmentConfig) : list jsstring :=
  (if negb (starts_with (lit "arn:aws:acm:us-east-1:") (certificateArn config))
   then [lit "Certificate ARN must be in us-east-1 region"] else [])
  ++ (if negb (RegExp.test public_key_id_pattern (viewersPublicKeyId config))
      then [lit "Invalid public key ID format"] else [])
  ++ (if negb (RegExp.test bucket_name_pattern (loginBucketName config))
      then [lit "Invalid bucket name format"] else [])
  ++ match deliveryAliases config with
     | Some domains => domain_errors domains
     | None => []
     end.

(** [errors.join('\n')]. *)
Fixpoint join_lines (lines : list jsstring) : jsstring :=
  match lines with
  | [] => []
  | [l] => l
  | l :: rest => l ++ 10%N :: join_lines rest
  end.

(** [ConfigValidator.validate(config)]: [inl message] when it throws
    [new Error(message)]. *)
Definition validate (config : EnvironmentConfig) : jsstring + unit :=
  match errors config with
  | [] => inr tt
  | e :: rest =>
      inl (lit "Configuration validation failed:" ++ 10%N :: join_lines (e :: rest))
  end.

(** The three entries of [environments]. *)
Definition development : EnvironmentConfig :=
  {| certificateArn := lit "arn:aws:acm:us-east-1:123456789012:certificate/dev-cert";
     loginBucketName := lit "dev-auth-bucket";
     originAccessIdentityCanonicalUserId := lit "DEV_OAI_CANONICAL_USER_ID";
     originAccessIdentityName := lit "dev-oai";
     viewersPublicKeyId := lit "K2DEV123456789";
     deliveryAliases := Some [lit "dev.example.com"];
     terminationProtection := Some false;
     priceClass := None |}.

Definition staging : EnvironmentConfig :=
  {| certificateArn := lit "arn:aws:acm:us-east-1:123456789012:certificate/staging-cert";
     loginBucketName := lit "staging-auth-bucket";
     originAccessIdentityCanonicalUserId := lit "STAGING_OAI_CANONICAL_USER_ID";
     originAccessIdentityName := lit "staging-oai";
     viewersPublicKeyId := lit "K2STAGING123456789";
     deliveryAliases := Some [lit "staging.example.com"];
     terminationProtection := Some false;
     priceClass := None |}.

Definition production : EnvironmentConfig :=
  {| certificateArn := lit "arn:aws:acm:us-east-1:123456789012:certificate/prod-cert";
     loginBucketName := lit "prod-auth-bucket";
     originAccessIdentityCanonicalUserId := lit "PROD_OAI_CANONICAL_USER_ID";
     originAccessIdentityName := lit "prod-oai";
     viewersPublicKeyId := lit "K2PROD123456789";
     deliveryAliases := Some [lit "www.example.com"; lit "example.com"];
     terminationProtection := Some true;
     priceClass := None |}.

(** The configuration of [bin/aws-web-ui.ts], as an [EnvironmentConfig]. *)
Definition bin : EnvironmentConfig :=
  {| certificateArn := [];
     loginBucketName := [];
     originAccessIdentityCanonicalUserId := [];
     originAccessIdentityName := [];
     viewersPublicKeyId := [];
     deliveryAliases := None;
     terminationProtection := None;
     priceClass := None |}.

End ConfigValidator.

(* ----------------------------------------------------------------- *)
(** ** Sample requests and a sample world *)

(** A request that carries the token in a cookie. *)
Definition cookie_request (tok : jsstring) : AuthMiddleware.Request :=
  {| AuthMiddleware.authorization := None;
     AuthMiddleware.cookies := Some {| AuthMiddleware.token := Some tok |};
     AuthMiddleware.user := None |}.

(** A request that carries one token in the header and another in a
    cookie. *)
Definition bearer_request (tok cookie : jsstring) : AuthMiddleware.Request :=
  {| AuthMiddleware.authorization := Some (lit "Bearer " ++ tok);
     AuthMiddleware.cookies := Some {| AuthMiddleware.token := Some cookie |};
     AuthMiddleware.user := None |}.

(** A [jwt.verify] that accepts the one token [good], for an
    administrator. *)
Definition demo_jwt_verify (token secret : jsstring) : option AuthMiddleware.User :=
  if jsstring_eqb token (lit "good")
  then Some {| AuthMiddleware.id := lit "1";
               AuthMiddleware.email := lit "admin@example.com";
               AuthMiddleware.roles := [lit "admin"] |}
  else None.

Definition demo_auth : AuthMiddleware.t :=
  {| AuthMiddleware.jwtSecret := lit "secret" |}.

(** A world that keeps the commands sent to CloudFront, in order; the
    clock stands still, the random number is always the same, timers and
    the console leave no trace. *)
Definition demo_World : Type := list SmartCacheInvalidator.CreateInvalidationCommand.

Definition demo_send (command : SmartCacheInvalidator.CreateInvalidationCommand)
    (w : demo_World) : jsstring * demo_World :=
  (lit "I1", w ++ [command]).

Definition demo_Date_now (w : demo_World) : Z := 1700000000000.

Definition demo_Math_random (w : demo_World) : jsstring * demo_World :=
  (lit "0.5", w).

Definition demo_setTimeout (ms : Z) (w : demo_World) : demo_World := w.

Definition demo_console_log (line : jsstring) (w : demo_World) : demo_World := w.

(* ================================================================= *)
(** * Facts about strings and patterns *)

Lemma jsstring_eqb_refl (a : jsstring) : jsstring_eqb a a = true.
Proof.
  induction a as [|x a IH]; simpl; [reflexivity|].
  now rewrite N.eqb_refl.
Qed.

Lemma jsstring_eqb_eq (a b : jsstring) : jsstring_eqb a b = true <-> a = b.
Proof.
  split.
  - revert b; induction a as [|x a IH]; intros [|y b]; simpl; try easy.
    intros H. apply andb_true_iff in H as [Hx Hr].
    apply N.eqb_eq in Hx. f_equal; auto.
  - intros ->. apply jsstring_eqb_refl.
Qed.

Lemma starts_with_app (p r : jsstring) : starts_with p (p ++ r) = true.
Proof.
  induction p as [|x p IH]; simpl; [reflexivity|].
  now rewrite N.eqb_refl.
Qed.

Lemma starts_with_inv (p s : jsstring) :
  starts_with p s = true -> exists r, s = p ++ r.
Proof.
  revert s; induction p as [|x p IH]; intros s H.
  - now exists s.
  - destruct s as [|y s]; simpl in H; [discriminate|].
    apply andb_true_iff in H as [Hx Hr].
    apply N.eqb_eq in Hx. subst y.
    destruct (IH _ Hr) as [r ->]. now exists r.
Qed.

(** A longer literal prefix matches fewer paths. *)
Lemma starts_with_shorter (p q s : jsstring) :
  starts_with (p ++ q) s = true -> starts_with p s = true.
Proof.
  intros H. apply starts_with_inv in H as [r ->].
  rewrite <- app_assoc. apply starts_with_app.
Qed.

Lemma find_none_Forall {A} (f : A -> bool) (l : list A) :
  Forall (fun a => f a = false) l -> find f l = None.
Proof.
  induction 1 as [|a l Ha _ IH]; simpl; [reflexivity|].
  now rewrite Ha.
Qed.

(* ================================================================= *)
(** * The behaviour table of the construct *)

(** Every path that the vendor-chunk pattern matches is matched by the
    broader wildcard too. *)
Lemma js_wildcard_covers_vendor_chunks (path : jsstring) :
  pattern_matches (lit "/js/chunk-vendors*") path = true ->
  pattern_matches (lit "/js/*") path = true.
Proof.
  change (pattern_matches (lit "/js/chunk-vendors*") path)
    with (starts_with (lit "/js/" ++ lit "chunk-vendors") path).
  change (pattern_matches (lit "/js/*") path) with (starts_with (lit "/js/") path).
  apply starts_with_shorter.
Qed.

Lemma css_wildcard_covers_vendor_chunks (path : jsstring) :
  pattern_matches (lit "/css/chunk-vendors*") path = true ->
  pattern_matches (lit "/css/*") path = true.
Proof.
  change (pattern_matches (lit "/css/chunk-vendors*") path)
    with (starts_with (lit "/css/" ++ lit "chunk-vendors") path).
  change (pattern_matches (lit "/css/*") path) with (starts_with (lit "/css/") path).
  apply starts_with_shorter.
Qed.

(** C1 (the code at the claim's input).  In the table the construct
    declares, [/js/*] stands before [/js/chunk-vendors*]; first-match-wins
    resolution of [/js/chunk-vendors/app.js] therefore returns the [/js/*]
    rule, which requires a signed token, and not the vendor-chunk rule. *)
Theorem Resolve_vendor_chunk_gets_signed_rule (props : WebUIProps) :
  Resolve (table_of props) (lit "/js/chunk-vendors/app.js")
  = behavior_of (lit "/js/*")
      {| origin := defaultOrigin props;
         cachePolicy := longStorageCachePolicy;
         viewerProtocolPolicy := HTTPS_ONLY;
         trustedKeyGroups := Some [new_trustedKeyGroup props] |}
  /\ requireSignedToken (Resolve (table_of props) (lit "/js/chunk-vendors/app.js")) = true
  /\ pattern (Resolve (table_of props) (lit "/js/chunk-vendors/app.js"))
     <> lit "/js/chunk-vendors*".
Proof.
  repeat split.
  intros H. vm_compute in H. discriminate H.
Qed.

(** The vendor-chunk rules are never the result of a resolution: whatever
    the path, the wildcard declared before them wins. *)
Theorem vendor_chunk_rules_unreachable (props : WebUIProps) (path : jsstring) :
  pattern (Resolve (table_of props) path) <> lit "/js/chunk-vendors*" /\
  pattern (Resolve (table_of props) path) <> lit "/css/chunk-vendors*".
Proof.
  unfold Resolve, table_of, behavior_table, new_websiteDistribution,
    new_additionalBehaviors.
  cbn [additionalBehaviors defaultBehavior behaviors tableDefault map find
       fst snd behavior_of pattern].
  generalize (normalize path); intros n.
  pose proof (js_wildcard_covers_vendor_chunks n) as Hjs.
  pose proof (css_wildcard_covers_vendor_chunks n) as Hcss.
  repeat match goal with
  | |- context [if pattern_matches ?p n then _ else _] =>
      let E := fresh "E" in destruct (pattern_matches p n) eqn:E
  end;
  try (split; (intros X; vm_compute in X; discriminate X)).
  - discriminate (Hcss eq_refl).
  - discriminate (Hjs eq_refl).
Qed.

(** C7.  In the table the construct declares, [/assets/logo.png] resolves
    to the [/assets/*] rule, which requires a signed token and carries the
    long-storage cache policy (365 d / 720 d / 3650 d); a path that no
    declared pattern matches resolves to the default behaviour, which
    requires a signed token and carries the default cache policy, whose
    default TTL is five minutes. *)
Theorem Resolve_assets_and_default (props : WebUIProps) (path : jsstring)
    (Hnone : matches_no_pattern (table_of props) path) :
  (pattern (Resolve (table_of props) (lit "/assets/logo.png")) = lit "/assets/*" /\
   requireSignedToken (Resolve (table_of props) (lit "/assets/logo.png")) = true /\
   behaviorCachePolicy (Resolve (table_of props) (lit "/assets/logo.png"))
     = longStorageCachePolicy /\
   Duration.toSeconds (defaultTtl longStorageCachePolicy) = (720 * 86400)%Z) /\
  (Resolve (table_of props) path = tableDefault (table_of props) /\
   requireSignedToken (Resolve (table_of props) path) = true /\
   behaviorCachePolicy (Resolve (table_of props) path) = defaultCachePolicy /\
   Duration.toSeconds (defaultTtl defaultCachePolicy) = (5 * 60)%Z).
Proof.
  split.
  - repeat split.
  - assert (E : Resolve (table_of props) path = tableDefault (table_of props)).
    { unfold Resolve. now rewrite (find_none_Forall _ _ Hnone). }
    rewrite E. repeat split.
Qed.

Lemma Resolve_assets_and_default_witness :
  matches_no_pattern (table_of bin_props) (lit "/index.html?lang=en") /\
  Resolve (table_of bin_props) (lit "/index.html?lang=en")
    = tableDefault (table_of bin_props).
Proof.
  assert (H : matches_no_pattern (table_of bin_props) (lit "/index.html?lang=en")).
  { repeat constructor. }
  split; [exact H|].
  exact (proj1 (proj2 (Resolve_assets_and_default bin_props _ H))).
Defined.

(* ================================================================= *)
(** * Error responses *)

(** C2.  With the error responses the construct configures, an origin 404
    is answered 200 with page [/]; an origin 403 is answered 200 with page
    [/login.html] when [AppsLoginUrl] is falsy (absent or empty) and with
    page [/apps-login.html] when it is truthy; every other origin status has
    no configured response and passes through unchanged. *)
Theorem Map_error_responses (props : WebUIProps) (status : Z) :
  let responses := errorResponses (new_websiteDistribution props) in
  Map responses 404 = (200%Z, Some (lit "/")) /\
  (truthy (AppsLoginUrl props) = false ->
     Map responses 403 = (200%Z, Some (lit "/login.html"))) /\
  (truthy (AppsLoginUrl props) = true ->
     Map responses 403 = (200%Z, Some (lit "/apps-login.html"))) /\
  (status <> 404%Z -> status <> 403%Z ->
     Map responses status = (status, None) /\
     Forall (fun r => httpStatus r <> status) responses).
Proof.
  cbv zeta. unfold Map. cbn [errorResponses new_websiteDistribution new_errorResponses
    find httpStatus responseHttpStatus responsePagePath].
  split; [reflexivity|].
  split; [intros ->; reflexivity|].
  split; [intros ->; reflexivity|].
  intros H404 H403. split.
  - destruct (Z.eqb_spec 404 status) as [E|_]; [congruence|].
    destruct (Z.eqb_spec 403 status) as [E|_]; [congruence|].
    reflexivity.
  - repeat constructor; cbn [httpStatus]; congruence.
Qed.

Lemma Map_error_responses_witness :
  (truthy (AppsLoginUrl bin_props) = false /\
   Map (errorResponses (new_websiteDistribution bin_props)) 403
     = (200%Z, Some (lit "/login.html"))) /\
  (truthy (AppsLoginUrl apps_props) = true /\
   Map (errorResponses (new_websiteDistribution apps_props)) 403
     = (200%Z, Some (lit "/apps-login.html"))) /\
  Map (errorResponses (new_websiteDistribution bin_props)) 200 = (200%Z, None) /\
  Map (errorResponses (new_websiteDistribution bin_props)) 500 = (500%Z, None).
Proof.
  split; [|split; [|split]].
  - split; [reflexivity|].
    exact (proj1 (proj2 (Map_error_responses bin_props 0)) eq_refl).
  - split; [reflexivity|].
    exact (proj1 (proj2 (proj2 (Map_error_responses apps_props 0))) eq_refl).
  - refine (proj1 (proj2 (proj2 (proj2 (Map_error_responses bin_props 200))) _ _)); lia.
  - refine (proj1 (proj2 (proj2 (proj2 (Map_error_responses bin_props 500))) _ _)); lia.
Defined.

(** An [AppsLoginUrl] that is set to the empty string is falsy: the 403
    page stays [/login.html]. *)
Example Map_403_empty_AppsLoginUrl :
  Map (errorResponses (new_websiteDistribution (with_AppsLoginUrl (Some []) bin_props))) 403
  = (200%Z, Some (lit "/login.html")).
Proof. reflexivity. Qed.

(* ================================================================= *)
(** * Cache policies *)

Lemma NewCachePolicy_ok (a b c : Z) (v : CachePolicyValue) :
  NewCachePolicy a b c = inr v ->
  v = {| minTTL := a; defaultTTL := b; maxTTL := c |} /\ ttl_invariant v.
Proof.
  unfold NewCachePolicy, ttl_invariant.
  destruct (Z.ltb_spec a 0); destruct (Z.ltb_spec b 0); destruct (Z.ltb_spec c 0);
    cbn [orb]; try discriminate.
  destruct (Z.ltb_spec b a); try discriminate.
  destruct (Z.ltb_spec c b); try discriminate.
  intros [= <-]. cbn. split; [reflexivity | lia].
Qed.

Lemma NewCachePolicy_rejects (a b c : Z) :
  (a < 0 \/ b < 0 \/ c < 0 \/ a > b \/ b > c)%Z ->
  NewCachePolicy a b c = inl InvalidPolicy.
Proof.
  unfold NewCachePolicy.
  destruct (Z.ltb_spec a 0); destruct (Z.ltb_spec b 0); destruct (Z.ltb_spec c 0);
    cbn [orb]; try reflexivity.
  destruct (Z.ltb_spec b a); try reflexivity.
  destruct (Z.ltb_spec c b); try reflexivity.
  lia.
Qed.

(** C8.  The two cache policies the construct builds (default: 0 s / 5 min
    / 24 h; long storage: 365 d / 720 d / 3650 d) are accepted by the
    validating constructor and satisfy [0 <= minTTL <= defaultTTL <= maxTTL];
    every behaviour of the distribution carries one of the two; and durations
    that violate the invariant are refused with [InvalidPolicy]. *)
Theorem cache_policies_valid (props : WebUIProps) (a b c : Z) :
  (policy_value defaultCachePolicy
     = inr {| minTTL := 0; defaultTTL := 300; maxTTL := 86400 |} /\
   policy_value longStorageCachePolicy
     = inr {| minTTL := 31536000; defaultTTL := 62208000; maxTTL := 315360000 |}) /\
  (forall cp v, (cp = defaultCachePolicy \/ cp = longStorageCachePolicy) ->
     policy_value cp = inr v -> ttl_invariant v) /\
  Forall (fun e => cachePolicy (snd e) = defaultCachePolicy \/
                   cachePolicy (snd e) = longStorageCachePolicy)
         ((lit "/*", defaultBehavior (new_websiteDistribution props))
          :: additionalBehaviors (new_websiteDistribution props)) /\
  ((a < 0 \/ b < 0 \/ c < 0 \/ a > b \/ b > c)%Z ->
     NewCachePolicy a b c = inl InvalidPolicy).
Proof.
  split; [split; reflexivity|].
  split.
  { intros cp v _ H. unfold policy_value in H.
    now apply NewCachePolicy_ok in H. }
  split.
  { repeat apply Forall_cons; try apply Forall_nil; cbn [snd cachePolicy]; auto. }
  apply NewCachePolicy_rejects.
Qed.

Lemma cache_policies_valid_witness :
  NewCachePolicy 600 300 86400 = inl InvalidPolicy /\
  NewCachePolicy (-1) 300 86400 = inl InvalidPolicy /\
  (exists v, policy_value longStorageCachePolicy = inr v /\ ttl_invariant v).
Proof.
  split; [|split].
  - apply (proj2 (proj2 (proj2 (cache_policies_valid bin_props 600 300 86400)))). lia.
  - apply (proj2 (proj2 (proj2 (cache_policies_valid bin_props (-1) 300 86400)))). lia.
  - eexists. split; [reflexivity|].
    eapply (proj1 (proj2 (cache_policies_valid bin_props 0 0 0))).
    + right; reflexivity.
    + reflexivity.
Defined.

(* ================================================================= *)
(** * What the construct does with [AppsLoginUrl] *)

(** The construct reads [AppsLoginUrl] through [truthy] only. *)
Lemma new_WebUI_truthiness (p q : WebUIProps) :
  same_but_AppsLoginUrl p q ->
  truthy (AppsLoginUrl p) = truthy (AppsLoginUrl q) ->
  new_WebUI p = new_WebUI q.
Proof.
  destruct p as [dn al arn vk lb oain oaic url].
  destruct q as [dn' al' arn' vk' lb' oain' oaic' url'].
  unfold same_but_AppsLoginUrl; cbn.
  intros (_ & -> & -> & -> & -> & -> & ->) Ht.
  unfold new_WebUI, new_websiteDistribution, new_errorResponses; cbn.
  now rewrite Ht.
Qed.

(** C9.  Two sets of properties that differ only in the value of a truthy
    [AppsLoginUrl] build the same construct: same bucket and bucket policy,
    same key group, same distribution (behaviours and error responses
    included), same outputs.  The 403 page is [/apps-login.html] for both. *)
Theorem AppsLoginUrl_noninterference (p q : WebUIProps)
    (Hsame : same_but_AppsLoginUrl p q)
    (Hp : truthy (AppsLoginUrl p) = true)
    (Hq : truthy (AppsLoginUrl q) = true) :
  new_WebUI p = new_WebUI q /\
  Map (errorResponses (websiteDistribution (new_WebUI p))) 403
    = (200%Z, Some (lit "/apps-login.html")).
Proof.
  split.
  - apply new_WebUI_truthiness; [assumption | congruence].
  - unfold Map; cbn. now rewrite Hp.
Qed.

Lemma AppsLoginUrl_noninterference_witness :
  AppsLoginUrl apps_props <> AppsLoginUrl other_apps_props /\
  same_but_AppsLoginUrl apps_props other_apps_props /\
  new_WebUI apps_props = new_WebUI other_apps_props.
Proof.
  assert (Hsame : same_but_AppsLoginUrl apps_props other_apps_props)
    by (repeat split).
  split; [discriminate|].
  split; [exact Hsame|].
  exact (proj1 (AppsLoginUrl_noninterference apps_props other_apps_props
                  Hsame eq_refl eq_refl)).
Defined.

(* ================================================================= *)
(** * The login pages *)

(** C10.  The behaviours whose origin is the login bucket are exactly
    [/login.html], [/apps-login.html], [/eth-login.html],
    [/idpresponse.html] and [/apps-idpresponse.html]; none of them lists a
    trusted key group, so none requires a signed token.  The default
    behaviour is served from the website bucket. *)
Theorem login_pages_need_no_signed_token (props : WebUIProps) :
  map fst (filter (fun e => served_from_login (snd e))
                  (additionalBehaviors (new_websiteDistribution props)))
  = [lit "/login.html"; lit "/apps-login.html"; lit "/eth-login.html";
     lit "/idpresponse.html"; lit "/apps-idpresponse.html"] /\
  Forall (fun e => origin (snd e) = loginOrigin props ->
                   trustedKeyGroups (snd e) = None /\
                   requires_signature (snd e) = false)
         (additionalBehaviors (new_websiteDistribution props)) /\
  Forall (fun b => originId b = Login -> requireSignedToken b = false)
         (behaviors (table_of props)) /\
  origin (defaultBehavior (new_websiteDistribution props)) <> loginOrigin props.
Proof.
  split; [reflexivity|].
  split.
  { repeat apply Forall_cons; try apply Forall_nil; cbn [snd origin trustedKeyGroups];
      intros H; try discriminate H; split; reflexivity. }
  split.
  { repeat apply Forall_cons; try apply Forall_nil; cbn;
      intros H; try discriminate H; reflexivity. }
  cbn. discriminate.
Qed.

(** Each login page resolves to a behaviour that asks for no signed token. *)
Lemma login_pages_resolve_unsigned (props : WebUIProps) (page : jsstring) :
  In page [lit "/login.html"; lit "/apps-login.html"; lit "/eth-login.html";
           lit "/idpresponse.html"; lit "/apps-idpresponse.html"] ->
  pattern (Resolve (table_of props) page) = page /\
  originId (Resolve (table_of props) page) = Login /\
  requireSignedToken (Resolve (table_of props) page) = false.
Proof.
  cbn [In]. intros [<-|[<-|[<-|[<-|[<-|[]]]]]]; repeat split.
Qed.

(* ================================================================= *)
(** * Induction on lists, three or two elements at a time *)

Lemma list_ind3 {A} (P : list A -> Prop) :
  P [] -> (forall a, P [a]) -> (forall a b, P [a; b]) ->
  (forall a b c l, P l -> P (a :: b :: c :: l)) ->
  forall l, P l.
Proof.
  intros H0 H1 H2 H3.
  fix IH 1. intros [|a [|b [|c l]]]; [exact H0 | apply H1 | apply H2 | apply H3, IH].
Qed.

Lemma list_ind_pairs {A} (P : list A -> Prop) :
  P [] -> (forall a, P [a]) ->
  (forall a b l, P (b :: l) -> P l -> P (a :: b :: l)) ->
  forall l, P l.
Proof.
  intros H0 H1 H2 l.
  enough (H : P l /\ forall a, P (a :: l)) by apply H.
  induction l as [|b l [IHl IHbl]].
  - split; [exact H0 | exact H1].
  - split; [apply IHbl | intros a; apply H2; [apply IHbl | exact IHl]].
Qed.

(** Linear arithmetic with division and remainder by constants. *)
Ltac divmod_lia := zify; Z.to_euclidean_division_equations; lia.

(* ================================================================= *)
(** * Bytes *)

Lemma byte_of_to_N (b : Byte.byte) : byte_of_N (Byte.to_N b) = b.
Proof. unfold byte_of_N. now rewrite Byte.of_to_N. Qed.

Lemma to_byte_of_N (n : N) : (n <= 255)%N -> Byte.to_N (byte_of_N n) = n.
Proof.
  intros Hn. unfold byte_of_N.
  pose proof (Byte.to_of_N_option_map n) as H.
  destruct (Byte.of_N n) as [b|]; cbn in H.
  - destruct (N.leb_spec n 255); [congruence | lia].
  - destruct (N.leb_spec n 255); [discriminate | lia].
Qed.

Lemma byte_eqb_refl (b : Byte.byte) : Byte.eqb b b = true.
Proof. now apply Byte.byte_dec_lb. Qed.

Lemma bytes_eqb_refl (b : bytes) : bytes_eqb b b = true.
Proof.
  induction b as [|x b IH]; cbn; [reflexivity|].
  now rewrite byte_eqb_refl.
Qed.

(* ================================================================= *)
(** * base64 *)

Lemma replace_all_app (c : N) (r x y : jsstring) :
  replace_all c r (x ++ y) = replace_all c r x ++ replace_all c r y.
Proof. apply flat_map_app. Qed.

Lemma url_safe_app (x y : jsstring) :
  SignedURLGenerator.url_safe (x ++ y)
  = SignedURLGenerator.url_safe x ++ SignedURLGenerator.url_safe y.
Proof.
  unfold SignedURLGenerator.url_safe. now rewrite !replace_all_app.
Qed.

(** The three replacements turn a character of the standard alphabet into
    the character of the URL alphabet that stands for the same six bits. *)
Lemma url_safe_sextet (i : N) :
  (i < 64)%N ->
  SignedURLGenerator.url_safe [sextet_char base64_alphabet i]
  = [sextet_char base64url_alphabet i].
Proof.
  intros Hi. unfold sextet_char.
  assert (Hn : (N.to_nat i < 64)%nat) by lia.
  clear Hi. generalize dependent (N.to_nat i). clear i. intros n Hn.
  do 64 (destruct n as [|n]; [reflexivity|]). lia.
Qed.

(** Decoding inverts the URL alphabet. *)
Lemma sextet_of_sextet_char (i : N) :
  (i < 64)%N ->
  SignedAccessToken.sextet_of_char (sextet_char base64url_alphabet i) = Some i.
Proof.
  intros Hi. unfold sextet_char.
  rewrite <- (N2Nat.id i) at 2.
  assert (Hn : (N.to_nat i < 64)%nat) by lia.
  clear Hi. generalize dependent (N.to_nat i). clear i. intros n Hn.
  do 64 (destruct n as [|n]; [reflexivity|]). lia.
Qed.

(** The characters of encoded text all come from the alphabet. *)
Lemma sextet_char_in (i : N) :
  (i < 64)%N -> In (sextet_char base64url_alphabet i) base64url_alphabet.
Proof.
  intros Hi. unfold sextet_char. apply nth_In.
  change (List.length base64url_alphabet) with 64%nat. lia.
Qed.

Lemma sextet1_bound (x : Byte.byte) : (Byte.to_N x / 4 < 64)%N.
Proof. pose proof (Byte.to_N_bounded x). divmod_lia. Qed.

Lemma sextet2_bound (x y : Byte.byte) :
  ((Byte.to_N x mod 4) * 16 + Byte.to_N y / 16 < 64)%N.
Proof.
  pose proof (Byte.to_N_bounded x). pose proof (Byte.to_N_bounded y). divmod_lia.
Qed.

Lemma sextet2_last_bound (x : Byte.byte) : ((Byte.to_N x mod 4) * 16 < 64)%N.
Proof. pose proof (Byte.to_N_bounded x). divmod_lia. Qed.

Lemma sextet3_bound (y z : Byte.byte) :
  ((Byte.to_N y mod 16) * 4 + Byte.to_N z / 64 < 64)%N.
Proof.
  pose proof (Byte.to_N_bounded y). pose proof (Byte.to_N_bounded z). divmod_lia.
Qed.

Lemma sextet3_last_bound (y : Byte.byte) : ((Byte.to_N y mod 16) * 4 < 64)%N.
Proof. pose proof (Byte.to_N_bounded y). divmod_lia. Qed.

Lemma sextet4_bound (z : Byte.byte) : (Byte.to_N z mod 64 < 64)%N.
Proof. divmod_lia. Qed.

Lemma first_byte_back (x y : Byte.byte) :
  (Byte.to_N x / 4 * 4 + ((Byte.to_N x mod 4) * 16 + Byte.to_N y / 16) / 16
   = Byte.to_N x)%N.
Proof.
  pose proof (Byte.to_N_bounded x). pose proof (Byte.to_N_bounded y). divmod_lia.
Qed.

Lemma first_byte_back_last (x : Byte.byte) :
  (Byte.to_N x / 4 * 4 + (Byte.to_N x mod 4) * 16 / 16 = Byte.to_N x)%N.
Proof. pose proof (Byte.to_N_bounded x). divmod_lia. Qed.

Lemma second_byte_back (x y z : Byte.byte) :
  ((((Byte.to_N x mod 4) * 16 + Byte.to_N y / 16) mod 16) * 16
   + ((Byte.to_N y mod 16) * 4 + Byte.to_N z / 64) / 4
   = Byte.to_N y)%N.
Proof.
  pose proof (Byte.to_N_bounded x). pose proof (Byte.to_N_bounded y).
  pose proof (Byte.to_N_bounded z). divmod_lia.
Qed.

Lemma second_byte_back_last (x y : Byte.byte) :
  ((((Byte.to_N x mod 4) * 16 + Byte.to_N y / 16) mod 16) * 16
   + (Byte.to_N y mod 16) * 4 / 4
   = Byte.to_N y)%N.
Proof.
  pose proof (Byte.to_N_bounded x). pose proof (Byte.to_N_bounded y). divmod_lia.
Qed.

Lemma third_byte_back (y z : Byte.byte) :
  ((((Byte.to_N y mod 16) * 4 + Byte.to_N z / 64) mod 4) * 64 + Byte.to_N z mod 64
   = Byte.to_N z)%N.
Proof.
  pose proof (Byte.to_N_bounded y). pose proof (Byte.to_N_bounded z). divmod_lia.
Qed.

(** The source's replacements on [toString('base64')] compute the unpadded
    base64url encoding. *)
Lemma url_safe_base64 (b : bytes) :
  SignedURLGenerator.url_safe (toString_base64 b) = base64url b.
Proof.
  unfold toString_base64, base64url.
  induction b as [| x | x y | x y z l IH] using list_ind3.
  - reflexivity.
  - cbn [base64_encode].
    change ([?a; ?c] ++ ?p) with ([a] ++ [c] ++ p).
    rewrite !url_safe_app.
    rewrite (url_safe_sextet _ (sextet1_bound x)).
    rewrite (url_safe_sextet _ (sextet2_last_bound x)).
    reflexivity.
  - cbn [base64_encode].
    change ([?a; ?c; ?d] ++ ?p) with ([a] ++ [c] ++ [d] ++ p).
    rewrite !url_safe_app.
    rewrite (url_safe_sextet _ (sextet1_bound x)).
    rewrite (url_safe_sextet _ (sextet2_bound x y)).
    rewrite (url_safe_sextet _ (sextet3_last_bound y)).
    reflexivity.
  - cbn [base64_encode].
    change ([?a; ?c; ?d; ?e] ++ ?p) with ([a] ++ [c] ++ [d] ++ [e] ++ p).
    rewrite !url_safe_app, IH.
    rewrite (url_safe_sextet _ (sextet1_bound x)).
    rewrite (url_safe_sextet _ (sextet2_bound x y)).
    rewrite (url_safe_sextet _ (sextet3_bound y z)).
    rewrite (url_safe_sextet _ (sextet4_bound z)).
    reflexivity.
Qed.

(** Decoding gives back the bytes that were encoded. *)
Lemma base64url_decode_encode (b : bytes) :
  SignedAccessToken.base64url_decode (base64url b) = Some b.
Proof.
  unfold base64url.
  induction b as [| x | x y | x y z l IH] using list_ind3.
  - reflexivity.
  - cbn [base64_encode app SignedAccessToken.base64url_decode].
    rewrite (sextet_of_sextet_char _ (sextet1_bound x)).
    rewrite (sextet_of_sextet_char _ (sextet2_last_bound x)).
    now rewrite first_byte_back_last, byte_of_to_N.
  - cbn [base64_encode app SignedAccessToken.base64url_decode].
    rewrite (sextet_of_sextet_char _ (sextet1_bound x)).
    rewrite (sextet_of_sextet_char _ (sextet2_bound x y)).
    rewrite (sextet_of_sextet_char _ (sextet3_last_bound y)).
    now rewrite first_byte_back, second_byte_back_last, !byte_of_to_N.
  - cbn [base64_encode app].
    cbn [SignedAccessToken.base64url_decode].
    fold (SignedAccessToken.base64url_decode
            (base64_encode base64url_alphabet [] l)).
    rewrite IH.
    rewrite (sextet_of_sextet_char _ (sextet1_bound x)).
    rewrite (sextet_of_sextet_char _ (sextet2_bound x y)).
    rewrite (sextet_of_sextet_char _ (sextet3_bound y z)).
    rewrite (sextet_of_sextet_char _ (sextet4_bound z)).
    now rewrite first_byte_back, second_byte_back, third_byte_back, !byte_of_to_N.
Qed.

(** Encoded text has characters of the URL alphabet only: no padding, no
    [+], no [/]. *)
Lemma base64url_alphabet_only (b : bytes) :
  Forall (fun c => In c base64url_alphabet) (base64url b).
Proof.
  unfold base64url.
  induction b as [| x | x y | x y z l IH] using list_ind3; cbn [base64_encode app];
    repeat (apply Forall_cons;
            [apply sextet_char_in;
             first [apply sextet1_bound | apply sextet2_bound | apply sextet2_last_bound
                   |apply sextet3_bound | apply sextet3_last_bound | apply sextet4_bound]
            |]);
    first [apply Forall_nil | exact IH].
Qed.

(* ================================================================= *)
(** * The policy document *)

Lemma remove_whitespace_app (x y : jsstring) :
  remove_whitespace (x ++ y) = remove_whitespace x ++ remove_whitespace y.
Proof. apply filter_app. Qed.

Lemma decimal_digits_no_whitespace (u : Decimal.uint) :
  remove_whitespace (decimal_digits u) = decimal_digits u.
Proof.
  unfold remove_whitespace.
  induction u; cbn [decimal_digits filter]; try reflexivity;
    match goal with
    | |- context [is_whitespace ?d] =>
        change (is_whitespace d) with false; cbn [negb]; now f_equal
    end.
Qed.

Lemma Number_toString_no_whitespace (n : Z) :
  remove_whitespace (Number_toString n) = Number_toString n.
Proof.
  unfold Number_toString. destruct (Z.to_int n) as [u|u].
  - apply decimal_digits_no_whitespace.
  - change (remove_whitespace (45%N :: decimal_digits u))
      with (45%N :: remove_whitespace (decimal_digits u)).
    now rewrite decimal_digits_no_whitespace.
Qed.

Lemma quote_key (k : jsstring) :
  forallb (fun c => negb ((c <? 32)%N || (c =? 34)%N || (c =? 92)%N) && (c <? 128)%N) k = true ->
  quote_code_units k = k.
Proof.
  induction k as [|c k IH]; cbn [forallb quote_code_units]; [reflexivity|].
  intros H. apply andb_true_iff in H as [Hc Hk].
  apply andb_true_iff in Hc as [Hesc Hlt].
  apply N.ltb_lt in Hlt. apply negb_true_iff in Hesc.
  unfold is_high_surrogate, is_low_surrogate.
  destruct (N.leb_spec 0xD800 c); [lia|].
  destruct (N.leb_spec 0xDC00 c); [lia|].
  cbn [andb].
  unfold quote_code_unit.
  apply orb_false_iff in Hesc as [Hesc H92]. apply orb_false_iff in Hesc as [H32 H34].
  rewrite H34, H92, H32. apply N.ltb_ge in H32.
  repeat match goal with
  | |- context [(c =? ?b)%N] => destruct (N.eqb_spec c b); [lia|]
  end.
  cbn [app]. f_equal. now apply IH.
Qed.

Lemma JSON_stringify_policy (url : jsstring) (expires : Z) :
  JSON_stringify (SignedURLGenerator.policy url expires)
  = SignedAccessToken.document_head ++ quote_code_units url
    ++ SignedAccessToken.document_middle ++ Number_toString expires
    ++ SignedAccessToken.document_tail.
Proof.
  unfold SignedURLGenerator.policy.
  cbn [JSON_stringify map join_comma fst snd].
  unfold QuoteJSONString.
  rewrite !(quote_key (lit _)) by (vm_compute; reflexivity).
  generalize (quote_code_units url) (Number_toString expires). intros q n.
  repeat (rewrite <- ?app_assoc; cbn [app]).
  vm_compute. reflexivity.
Qed.
Lemma policyString_shape (url : jsstring) (expires : Z) :
  SignedURLGenerator.policyString url expires
  = SignedAccessToken.canonical_policy_document (carried url) expires.
Proof.
  unfold SignedURLGenerator.policyString, SignedAccessToken.canonical_policy_document,
    carried.
  rewrite JSON_stringify_policy, !remove_whitespace_app, Number_toString_no_whitespace.
  reflexivity.
Qed.

Lemma surrogate_not_whitespace (c : N) :
  is_high_surrogate c || is_low_surrogate c = true -> is_whitespace c = false.
Proof.
  unfold is_high_surrogate, is_low_surrogate. intros H.
  assert (R : (0xD800 <= c <= 0xDFFF)%N).
  { apply orb_true_iff in H as [H|H]; apply andb_true_iff in H as [H1 H2];
      apply N.leb_le in H1, H2; lia. }
  clear H. unfold is_whitespace.
  repeat match goal with
  | |- context [(c <=? ?b)%N] =>
      replace (c <=? b)%N with false by (symmetry; apply N.leb_gt; lia)
  | |- context [(c =? ?b)%N] =>
      replace (c =? b)%N with false by (symmetry; apply N.eqb_neq; lia)
  end.
  now rewrite !andb_false_r.
Qed.

Lemma quote_code_unit_verbatim (c : N) :
  (c <? 32)%N || (c =? 34)%N || (c =? 92)%N = false ->
  quote_code_unit c = [c].
Proof.
  unfold quote_code_unit. intros H.
  apply orb_false_iff in H as [H H92]. apply orb_false_iff in H as [H32 H34].
  rewrite H34, H92, H32.
  apply N.ltb_ge in H32.
  repeat match goal with
  | |- context [(c =? ?b)%N] => destruct (N.eqb_spec c b); [lia|]
  end.
  reflexivity.
Qed.

(** A URL without escaped characters and without white space is carried as
    it is. *)
Lemma carried_verbatim (url : jsstring) :
  json_verbatim url = true -> carried url = url.
Proof.
  unfold carried.
  induction url as [| c | c d l IHd IHl] using list_ind_pairs.
  - reflexivity.
  - cbn [json_verbatim quote_code_units].
    destruct (is_high_surrogate c) eqn:Hh; [discriminate|].
    intros H. repeat (apply andb_true_iff in H as [H ?]).
    apply negb_true_iff in H. rewrite H.
    rewrite quote_code_unit_verbatim by now apply negb_true_iff.
    cbn [app remove_whitespace filter].
    match goal with Hw : negb (is_whitespace c) = true |- _ => now rewrite Hw end.
  - cbn [json_verbatim quote_code_units].
    destruct (is_high_surrogate c) eqn:Hh.
    + intros H. apply andb_true_iff in H as [Hd Hl].
      rewrite Hd. cbn [remove_whitespace filter].
      rewrite (surrogate_not_whitespace c) by (rewrite Hh; reflexivity).
      rewrite (surrogate_not_whitespace d) by (rewrite Hd; apply orb_true_r).
      cbn [negb]. f_equal. f_equal. now apply IHl.
    + intros H. repeat (apply andb_true_iff in H as [H ?]).
      apply negb_true_iff in H. rewrite H.
      rewrite quote_code_unit_verbatim by now apply negb_true_iff.
      cbn [app remove_whitespace filter].
      match goal with Hw : negb (is_whitespace c) = true |- _ => rewrite Hw end.
      f_equal. now apply IHd.
Qed.

(* ================================================================= *)
(** * UTF-8 *)

Lemma Buffer_from_cons (c : N) (rest : jsstring) :
  Buffer_from (c :: rest)
  = if is_high_surrogate c then
      match rest with
      | d :: rest' =>
          if is_low_surrogate d
          then utf8_of_code_point (0x10000 + (c - 0xD800) * 0x400 + (d - 0xDC00))
               ++ Buffer_from rest'
          else replacement_character ++ Buffer_from rest
      | [] => replacement_character
      end
    else if is_low_surrogate c then replacement_character ++ Buffer_from rest
    else utf8_of_code_point c ++ Buffer_from rest.
Proof. reflexivity. Qed.

Lemma ascii_not_surrogate (c : N) :
  (c < 128)%N -> is_high_surrogate c = false /\ is_low_surrogate c = false.
Proof.
  intros H. unfold is_high_surrogate, is_low_surrogate.
  destruct (N.leb_spec 0xD800 c); [lia|].
  destruct (N.leb_spec 0xDC00 c); [lia|].
  split; reflexivity.
Qed.

Lemma decimal_digits_ascii (u : Decimal.uint) : is_ascii (decimal_digits u) = true.
Proof. unfold is_ascii. induction u; cbn; auto. Qed.

Lemma Number_toString_ascii (n : Z) : is_ascii (Number_toString n) = true.
Proof.
  unfold Number_toString. destruct (Z.to_int n) as [u|u].
  - apply decimal_digits_ascii.
  - unfold is_ascii. cbn [forallb]. apply decimal_digits_ascii.
Qed.

Lemma is_ascii_app (a b : jsstring) :
  is_ascii a = true -> is_ascii b = true -> is_ascii (a ++ b) = true.
Proof.
  unfold is_ascii. intros Ha Hb. now rewrite forallb_app, Ha, Hb.
Qed.

Lemma forallb_reversed {A} (f : A -> bool) (l : list A) :
  forallb f (rev l) = forallb f l.
Proof.
  induction l as [|a l IH]; cbn [rev forallb]; [reflexivity|].
  rewrite forallb_app, IH. cbn [forallb]. rewrite andb_true_r. apply andb_comm.
Qed.
(* ================================================================= *)
(** * Numbers *)

Lemma Number_of_safe_integer (z : Z) :
  Number_isSafeInteger z = true -> Number_of_integer z = z.
Proof.
  unfold Number_isSafeInteger, Number_of_integer. intros H.
  apply Z.leb_le in H. cbv zeta.
  destruct (Z.leb_spec (Z.abs z) (2 ^ 53)); [reflexivity | lia].
Qed.

(** Where the sum is a safe integer the addition is exact. *)
Lemma expires_exact (Date_now expiresIn : Z) :
  Number_isSafeInteger (Date_now / 1000 + expiresIn) = true ->
  SignedURLGenerator.expires Date_now expiresIn = (Date_now / 1000 + expiresIn)%Z.
Proof. apply Number_of_safe_integer. Qed.

(* ================================================================= *)
(** * Reading UTF-8 back *)

Lemma utf8_decode_cons (x : Byte.byte) (r : bytes) :
  SignedAccessToken.utf8_decode (x :: r)
  = let x := Byte.to_N x in
    if (x <? 0x80)%N then option_map (cons x) (SignedAccessToken.utf8_decode r)
    else if (x <? 0xC0)%N then None
    else if (x <? 0xE0)%N then
      match r with
      | y :: r' =>
          let y := Byte.to_N y in
          let cp := ((x - 0xC0) * 64 + (y - 0x80))%N in
          if SignedAccessToken.continuation y && (0x80 <=? cp)%N
          then option_map (cons cp) (SignedAccessToken.utf8_decode r')
          else None
      | _ => None
      end
    else if (x <? 0xF0)%N then
      match r with
      | y :: z :: r' =>
          let y := Byte.to_N y in
          let z := Byte.to_N z in
          let cp := ((x - 0xE0) * 4096 + (y - 0x80) * 64 + (z - 0x80))%N in
          if SignedAccessToken.continuation y && SignedAccessToken.continuation z
             && (0x800 <=? cp)%N
             && negb (is_high_surrogate cp) && negb (is_low_surrogate cp)
          then option_map (cons cp) (SignedAccessToken.utf8_decode r')
          else None
      | _ => None
      end
    else if (x <? 0xF8)%N then
      match r with
      | y :: z :: w :: r' =>
          let y := Byte.to_N y in
          let z := Byte.to_N z in
          let w := Byte.to_N w in
          let cp := ((x - 0xF0) * 262144 + (y - 0x80) * 4096 + (z - 0x80) * 64
                     + (w - 0x80))%N in
          if SignedAccessToken.continuation y && SignedAccessToken.continuation z
             && SignedAccessToken.continuation w
             && (0x10000 <=? cp)%N && (cp <? 0x110000)%N
          then option_map (app (SignedAccessToken.utf16_of_code_point cp))
                          (SignedAccessToken.utf8_decode r')
          else None
      | _ => None
      end
    else None.
Proof. reflexivity. Qed.

Ltac decide_tests :=
  repeat match goal with
  | |- context [(?a <? ?b)%N] =>
      first [ replace (a <? b)%N with true by (symmetry; apply N.ltb_lt; lia)
            | replace (a <? b)%N with false by (symmetry; apply N.ltb_ge; lia) ]
  | |- context [(?a <=? ?b)%N] =>
      first [ replace (a <=? b)%N with true by (symmetry; apply N.leb_le; lia)
            | replace (a <=? b)%N with false by (symmetry; apply N.leb_gt; lia) ]
  end.

(** A code unit that is no surrogate is read back from its bytes. *)
Lemma utf8_decode_code_unit (c : N) (r : bytes) :
  (c < 0x10000)%N -> is_high_surrogate c = false -> is_low_surrogate c = false ->
  SignedAccessToken.utf8_decode (utf8_of_code_point c ++ r)
  = option_map (cons c) (SignedAccessToken.utf8_decode r).
Proof.
  intros Hc Hh Hl.
  assert (Hs : (c < 0xD800 \/ 0xDFFF < c)%N).
  { unfold is_high_surrogate, is_low_surrogate in *.
    destruct (N.leb_spec 0xD800 c); [|lia].
    destruct (N.leb_spec c 0xDBFF); [discriminate|].
    destruct (N.leb_spec 0xDC00 c); [|lia].
    destruct (N.leb_spec c 0xDFFF); [discriminate | lia]. }
  unfold utf8_of_code_point.
  destruct (N.ltb_spec c 0x80) as [H1|H1].
  - cbn [app]. rewrite utf8_decode_cons. cbv zeta.
    rewrite to_byte_of_N by lia. decide_tests. reflexivity.
  - destruct (N.ltb_spec c 0x800) as [H2|H2].
    + pose proof (N.div_mod c 64 ltac:(lia)) as E.
      pose proof (N.mod_lt c 64 ltac:(lia)) as Hm.
      set (q := (c / 64)%N) in *. set (m := (c mod 64)%N) in *.
      cbn [app]. rewrite utf8_decode_cons. cbv zeta.
      rewrite !to_byte_of_N by lia.
      unfold SignedAccessToken.continuation. decide_tests. cbn [andb].
      replace ((192 + q - 192) * 64 + (128 + m - 128))%N with c by lia.
      reflexivity.
    + pose proof (N.div_mod c 64 ltac:(lia)) as E.
      pose proof (N.mod_lt c 64 ltac:(lia)) as Hm.
      pose proof (N.div_mod (c / 64) 64 ltac:(lia)) as E2.
      pose proof (N.mod_lt (c / 64) 64 ltac:(lia)) as Hm2.
      assert (E3 : (c / 4096 = c / 64 / 64)%N) by (now rewrite N.Div0.div_div).
      rewrite E3.
      set (q := (c / 64)%N) in *. set (m := (c mod 64)%N) in *.
      set (q2 := (q / 64)%N) in *. set (m2 := (q mod 64)%N) in *.
      destruct (N.ltb_spec c 0x10000) as [_|]; [|lia].
      cbn [app]. rewrite utf8_decode_cons. cbv zeta.
      rewrite !to_byte_of_N by lia.
      unfold SignedAccessToken.continuation. decide_tests. cbn [andb].
      replace ((224 + q2 - 224) * 4096 + (128 + m2 - 128) * 64 + (128 + m - 128))%N
        with c by lia.
      rewrite Hh, Hl. decide_tests. reflexivity.
Qed.

(** A surrogate pair is read back from the four bytes of its code point. *)
Lemma utf8_decode_pair (c d : N) (r : bytes) :
  is_high_surrogate c = true -> is_low_surrogate d = true ->
  SignedAccessToken.utf8_decode
    (utf8_of_code_point (0x10000 + (c - 0xD800) * 0x400 + (d - 0xDC00)) ++ r)
  = option_map (app [c; d]) (SignedAccessToken.utf8_decode r).
Proof.
  unfold is_high_surrogate, is_low_surrogate. intros Hc Hd.
  apply andb_true_iff in Hc as [Hc1 Hc2]. apply andb_true_iff in Hd as [Hd1 Hd2].
  apply N.leb_le in Hc1, Hc2, Hd1, Hd2.
  remember (0x10000 + (c - 0xD800) * 0x400 + (d - 0xDC00))%N as cp eqn:Ecp.
  assert (Hcp : (0x10000 <= cp < 0x110000)%N) by lia.
  unfold utf8_of_code_point.
  destruct (N.ltb_spec cp 0x80); [lia|].
  destruct (N.ltb_spec cp 0x800); [lia|].
  destruct (N.ltb_spec cp 0x10000); [lia|].
  pose proof (N.div_mod cp 64 ltac:(lia)) as E.
  pose proof (N.mod_lt cp 64 ltac:(lia)) as Hm.
  pose proof (N.div_mod (cp / 64) 64 ltac:(lia)) as E2.
  pose proof (N.mod_lt (cp / 64) 64 ltac:(lia)) as Hm2.
  pose proof (N.div_mod (cp / 64 / 64) 64 ltac:(lia)) as E3.
  pose proof (N.mod_lt (cp / 64 / 64) 64 ltac:(lia)) as Hm3.
  assert (D2 : (cp / 4096 = cp / 64 / 64)%N) by (now rewrite N.Div0.div_div).
  assert (D3 : (cp / 262144 = cp / 64 / 64 / 64)%N) by (now rewrite !N.Div0.div_div).
  rewrite D2, D3.
  set (q := (cp / 64)%N) in *. set (m := (cp mod 64)%N) in *.
  set (q2 := (q / 64)%N) in *. set (m2 := (q mod 64)%N) in *.
  set (q3 := (q2 / 64)%N) in *. set (m3 := (q2 mod 64)%N) in *.
  cbn [app]. rewrite utf8_decode_cons. cbv zeta.
  rewrite !to_byte_of_N by lia.
  unfold SignedAccessToken.continuation. decide_tests. cbn [andb].
  replace ((240 + q3 - 240) * 262144 + (128 + m3 - 128) * 4096 + (128 + m2 - 128) * 64
           + (128 + m - 128))%N with cp by lia.
  decide_tests. cbn [andb].
  unfold SignedAccessToken.utf16_of_code_point. decide_tests.
  assert (Hhi : ((cp - 0x10000) / 0x400 = c - 0xD800)%N).
  { symmetry. apply (N.div_unique _ _ _ (d - 0xDC00)%N); lia. }
  assert (Hlo : ((cp - 0x10000) mod 0x400 = d - 0xDC00)%N).
  { symmetry. apply (N.mod_unique _ _ (c - 0xD800)%N); lia. }
  rewrite Hhi, Hlo.
  replace (0xD800 + (c - 0xD800))%N with c by lia.
  replace (0xDC00 + (d - 0xDC00))%N with d by lia.
  reflexivity.
Qed.

(** Bytes that encode well-formed text are read back to this text. *)
Lemma utf8_decode_Buffer_from (s : jsstring) (r : bytes) :
  utf16_well_formed s = true ->
  SignedAccessToken.utf8_decode (Buffer_from s ++ r)
  = option_map (app s) (SignedAccessToken.utf8_decode r).
Proof.
  induction s as [| c | c d l IHd IHl] using list_ind_pairs.
  - intros _. cbn. now destruct (SignedAccessToken.utf8_decode r).
  - cbn [utf16_well_formed]. rewrite Buffer_from_cons.
    destruct (is_high_surrogate c) eqn:Hh; [discriminate|].
    destruct (is_low_surrogate c) eqn:Hl; [discriminate|].
    cbn [negb andb]. intros H. apply andb_true_iff in H as [H _]. apply N.ltb_lt in H.
    cbn [Buffer_from]. rewrite app_nil_r.
    now rewrite utf8_decode_code_unit.
  - cbn [utf16_well_formed]. rewrite Buffer_from_cons.
    destruct (is_high_surrogate c) eqn:Hh.
    + intros H. apply andb_true_iff in H as [Hd Hrest]. rewrite Hd.
      rewrite <- app_assoc, utf8_decode_pair, (IHl Hrest) by assumption.
      now destruct (SignedAccessToken.utf8_decode r).
    + destruct (is_low_surrogate c) eqn:Hl; [discriminate|].
      cbn [negb andb]. intros H. apply andb_true_iff in H as [H Hrest].
      apply N.ltb_lt in H.
      rewrite <- app_assoc, utf8_decode_code_unit, (IHd Hrest) by assumption.
      now destruct (SignedAccessToken.utf8_decode r).
Qed.

(* ================================================================= *)
(** * Reading a JSON string back *)

Lemma quote_code_units_cons (c : N) (rest : jsstring) :
  quote_code_units (c :: rest)
  = if is_high_surrogate c then
      match rest with
      | d :: rest' =>
          if is_low_surrogate d
          then c :: d :: quote_code_units rest'
          else UnicodeEscape c ++ quote_code_units rest
      | [] => UnicodeEscape c
      end
    else if is_low_surrogate c then UnicodeEscape c ++ quote_code_units rest
    else quote_code_unit c ++ quote_code_units rest.
Proof. reflexivity. Qed.

Lemma unquote_cons (c : N) (r : jsstring) :
  SignedAccessToken.unquote (c :: r)
  = if (c =? 34)%N then Some ([], r)
    else if (c =? 92)%N then
      match r with
      | e :: r1 =>
          if (e =? 117)%N then
            match r1 with
            | h1 :: h2 :: h3 :: h4 :: r2 =>
                match SignedAccessToken.hex_value h1, SignedAccessToken.hex_value h2,
                      SignedAccessToken.hex_value h3, SignedAccessToken.hex_value h4 with
                | Some a, Some b, Some c, Some d =>
                    SignedAccessToken.unquoted (a * 4096 + b * 256 + c * 16 + d)%N
                      (SignedAccessToken.unquote r2)
                | _, _, _, _ => None
                end
            | _ => None
            end
          else
            match SignedAccessToken.simple_escape e with
            | Some x => SignedAccessToken.unquoted x (SignedAccessToken.unquote r1)
            | None => None
            end
      | [] => None
      end
    else if (c <? 32)%N then None
    else SignedAccessToken.unquoted c (SignedAccessToken.unquote r).
Proof. reflexivity. Qed.

Lemma hex_value_hex_digit (n : N) :
  (n < 16)%N -> SignedAccessToken.hex_value (hex_digit n) = Some n.
Proof.
  intros H. unfold hex_digit, SignedAccessToken.hex_value.
  destruct (N.ltb_spec n 10).
  - decide_tests. cbn [andb]. f_equal. lia.
  - decide_tests. cbn [andb]. f_equal. lia.
Qed.

(** A [\uXXXX] escape is read back to its code unit. *)
Lemma unquote_UnicodeEscape (c : N) (s : jsstring) :
  (c < 0x10000)%N ->
  SignedAccessToken.unquote (UnicodeEscape c ++ s)
  = SignedAccessToken.unquoted c (SignedAccessToken.unquote s).
Proof.
  intros Hc. unfold UnicodeEscape. cbn [app].
  rewrite unquote_cons.
  change (92 =? 34)%N with false. change (92 =? 92)%N with true.
  change (117 =? 117)%N with true. cbv iota.
  pose proof (N.div_mod c 16 ltac:(lia)) as E1.
  pose proof (N.mod_lt c 16 ltac:(lia)) as M1.
  pose proof (N.div_mod (c / 16) 16 ltac:(lia)) as E2.
  pose proof (N.mod_lt (c / 16) 16 ltac:(lia)) as M2.
  pose proof (N.div_mod (c / 16 / 16) 16 ltac:(lia)) as E3.
  pose proof (N.mod_lt (c / 16 / 16) 16 ltac:(lia)) as M3.
  assert (D2 : (c / 256 = c / 16 / 16)%N) by (now rewrite N.Div0.div_div).
  assert (D3 : (c / 4096 = c / 16 / 16 / 16)%N) by (now rewrite !N.Div0.div_div).
  rewrite D2, D3.
  set (q1 := (c / 16)%N) in *. set (m1 := (c mod 16)%N) in *.
  set (q2 := (q1 / 16)%N) in *. set (m2 := (q1 mod 16)%N) in *.
  set (q3 := (q2 / 16)%N) in *. set (m3 := (q2 mod 16)%N) in *.
  rewrite !hex_value_hex_digit by lia.
  replace (q3 * 4096 + m3 * 256 + m2 * 16 + m1)%N with c by lia.
  reflexivity.
Qed.

(** A character that stands for itself is read as itself. *)
Lemma unquote_verbatim (c : N) (s : jsstring) :
  (c <? 32)%N || (c =? 34)%N || (c =? 92)%N = false ->
  SignedAccessToken.unquote (c :: s)
  = SignedAccessToken.unquoted c (SignedAccessToken.unquote s).
Proof.
  intros H. apply orb_false_iff in H as [H H92]. apply orb_false_iff in H as [H32 H34].
  now rewrite unquote_cons, H34, H92, H32.
Qed.

Lemma unquote_quote_code_unit (c : N) (s : jsstring) :
  (c < 0x10000)%N \/ (32 <= c)%N ->
  SignedAccessToken.unquote (quote_code_unit c ++ s)
  = SignedAccessToken.unquoted c (SignedAccessToken.unquote s).
Proof.
  intros Hc. unfold quote_code_unit.
  repeat match goal with
  | |- context [(c =? ?b)%N] =>
      destruct (N.eqb_spec c b); [subst c; reflexivity|]
  end.
  destruct (N.ltb_spec c 32).
  - apply unquote_UnicodeEscape. lia.
  - cbn [app]. apply unquote_verbatim.
    apply orb_false_iff. split; [apply orb_false_iff; split|].
    + apply N.ltb_ge. lia.
    + now apply N.eqb_neq.
    + now apply N.eqb_neq.
Qed.

Lemma surrogate_range (c : N) :
  is_high_surrogate c || is_low_surrogate c = true -> (0xD800 <= c <= 0xDFFF)%N.
Proof.
  unfold is_high_surrogate, is_low_surrogate. intros H.
  apply orb_true_iff in H as [H|H]; apply andb_true_iff in H as [H1 H2];
    apply N.leb_le in H1, H2; lia.
Qed.

Lemma unquote_surrogate (c : N) (s : jsstring) :
  is_high_surrogate c || is_low_surrogate c = true ->
  SignedAccessToken.unquote (c :: s)
  = SignedAccessToken.unquoted c (SignedAccessToken.unquote s).
Proof.
  intros H. apply surrogate_range in H. apply unquote_verbatim.
  apply orb_false_iff. split; [apply orb_false_iff; split|].
  - apply N.ltb_ge. lia.
  - apply N.eqb_neq. lia.
  - apply N.eqb_neq. lia.
Qed.

(** The characters [JSON.stringify] writes between the quotes are read back
    to the string, up to the closing quote. *)
Lemma unquote_quote_code_units (s rest : jsstring) :
  SignedAccessToken.unquote (quote_code_units s ++ 34%N :: rest) = Some (s, rest).
Proof.
  induction s as [| c | c d l IHd IHl] using list_ind_pairs.
  - reflexivity.
  - rewrite quote_code_units_cons.
    destruct (is_high_surrogate c) eqn:Hh;
      [|destruct (is_low_surrogate c) eqn:Hl].
    + rewrite unquote_UnicodeEscape; [reflexivity|].
      pose proof (surrogate_range c) as R. rewrite Hh in R. specialize (R eq_refl). lia.
    + cbn [quote_code_units]. rewrite app_nil_r.
      rewrite unquote_UnicodeEscape; [reflexivity|].
      pose proof (surrogate_range c) as R. rewrite Hl, orb_true_r in R.
      specialize (R eq_refl). lia.
    + cbn [quote_code_units]. rewrite app_nil_r.
      destruct (N.ltb_spec c 32).
      * rewrite unquote_quote_code_unit by lia. reflexivity.
      * rewrite unquote_quote_code_unit by lia. reflexivity.
  - rewrite quote_code_units_cons.
    destruct (is_high_surrogate c) eqn:Hh;
      [destruct (is_low_surrogate d) eqn:Hd | destruct (is_low_surrogate c) eqn:Hl].
    + cbn [app].
      rewrite unquote_surrogate by (rewrite Hh; reflexivity).
      rewrite unquote_surrogate by (rewrite Hd; apply orb_true_r).
      now rewrite IHl.
    + rewrite <- app_assoc, unquote_UnicodeEscape, IHd; [reflexivity|].
      pose proof (surrogate_range c) as R. rewrite Hh in R. specialize (R eq_refl). lia.
    + rewrite <- app_assoc, unquote_UnicodeEscape, IHd; [reflexivity|].
      pose proof (surrogate_range c) as R. rewrite Hl, orb_true_r in R.
      specialize (R eq_refl). lia.
    + rewrite <- app_assoc.
      destruct (N.ltb_spec c 32).
      * rewrite unquote_quote_code_unit, IHd by lia. reflexivity.
      * rewrite unquote_quote_code_unit, IHd by lia. reflexivity.
Qed.

(* ================================================================= *)
(** * Well-formed text *)

Lemma utf16_well_formed_cons (c : N) (rest : jsstring) :
  utf16_well_formed (c :: rest)
  = if is_high_surrogate c then
      match rest with
      | d :: rest' => is_low_surrogate d && utf16_well_formed rest'
      | [] => false
      end
    else negb (is_low_surrogate c) && (c <? 0x10000)%N && utf16_well_formed rest.
Proof. reflexivity. Qed.

Lemma utf16_well_formed_app (a b : jsstring) :
  utf16_well_formed a = true -> utf16_well_formed b = true ->
  utf16_well_formed (a ++ b) = true.
Proof.
  intros Ha Hb. revert Ha.
  induction a as [| c | c d l IHd IHl] using list_ind_pairs.
  - intros _. exact Hb.
  - cbn [app]. rewrite !utf16_well_formed_cons.
    destruct (is_high_surrogate c); [discriminate|].
    cbn [utf16_well_formed]. rewrite andb_true_r. intros ->. exact Hb.
  - cbn [app]. rewrite (utf16_well_formed_cons c (d :: l)),
      (utf16_well_formed_cons c (d :: l ++ b)).
    destruct (is_high_surrogate c).
    + intros H. apply andb_true_iff in H as [-> H]. now apply IHl.
    + intros H. apply andb_true_iff in H as [-> H]. now apply IHd.
Qed.

Lemma utf16_well_formed_ascii (a : jsstring) :
  is_ascii a = true -> utf16_well_formed a = true.
Proof.
  unfold is_ascii. induction a as [|c a IH]; cbn [forallb]; [reflexivity|].
  intros H. apply andb_true_iff in H as [Hc Ha]. apply N.ltb_lt in Hc.
  rewrite utf16_well_formed_cons.
  destruct (ascii_not_surrogate c Hc) as [-> ->].
  cbn [negb andb]. rewrite (IH Ha), andb_true_r. apply N.ltb_lt. lia.
Qed.

Lemma quote_code_unit_ascii_or_verbatim (c : N) :
  is_ascii (quote_code_unit c) = true \/ quote_code_unit c = [c].
Proof.
  unfold quote_code_unit.
  repeat match goal with
  | |- context [(c =? ?b)%N] => destruct (N.eqb_spec c b); [left; reflexivity|]
  end.
  destruct (N.ltb_spec c 32); [left | right; reflexivity].
  unfold UnicodeEscape, hex_digit, is_ascii. cbn [forallb].
  repeat match goal with
  | |- context [if (?a <? 10)%N then _ else _] => destruct (N.ltb_spec a 10)
  end;
  repeat (apply andb_true_iff; split); try reflexivity; apply N.ltb_lt;
    try lia;
    match goal with
    | |- (_ + ?x < _)%N =>
        assert (x < 16)%N by
          (first [apply N.mod_lt; lia
                 | apply N.Div0.div_lt_upper_bound; lia]); lia
    end.
Qed.

Lemma UnicodeEscape_ascii (c : N) :
  (c < 0x10000)%N -> is_ascii (UnicodeEscape c) = true.
Proof.
  intros Hc. unfold UnicodeEscape, hex_digit, is_ascii. cbn [forallb].
  assert (c / 4096 < 16)%N by (apply N.Div0.div_lt_upper_bound; lia).
  pose proof (N.mod_lt (c / 256) 16 ltac:(lia)).
  pose proof (N.mod_lt (c / 16) 16 ltac:(lia)).
  pose proof (N.mod_lt c 16 ltac:(lia)).
  repeat match goal with
  | |- context [if (?a <? 10)%N then _ else _] => destruct (N.ltb_spec a 10)
  end;
  repeat (apply andb_true_iff; split); try reflexivity; apply N.ltb_lt; lia.
Qed.

(** What [JSON.stringify] writes for a string is well-formed text: it
    escapes the surrogates that have no partner. *)
Lemma quote_code_units_well_formed (s : jsstring) :
  is_jsstring s = true -> utf16_well_formed (quote_code_units s) = true.
Proof.
  unfold is_jsstring.
  assert (Hunit : forall c, (c < 0x10000)%N -> is_high_surrogate c = false ->
                            is_low_surrogate c = false ->
                            utf16_well_formed (quote_code_unit c) = true).
  { intros c Hc Hh Hl.
    destruct (quote_code_unit_ascii_or_verbatim c) as [H| ->].
    - now apply utf16_well_formed_ascii.
    - rewrite utf16_well_formed_cons, Hh, Hl. cbn [negb andb utf16_well_formed].
      rewrite andb_true_r. now apply N.ltb_lt. }
  assert (Hesc : forall c, is_high_surrogate c || is_low_surrogate c = true ->
                           utf16_well_formed (UnicodeEscape c) = true).
  { intros c H. apply surrogate_range in H.
    apply utf16_well_formed_ascii, UnicodeEscape_ascii. lia. }
  induction s as [| c | c d l IHd IHl] using list_ind_pairs.
  - reflexivity.
  - cbn [forallb]. intros H. apply andb_true_iff in H as [Hc _]. apply N.ltb_lt in Hc.
    rewrite quote_code_units_cons.
    destruct (is_high_surrogate c) eqn:Hh;
      [|destruct (is_low_surrogate c) eqn:Hl]; cbn [quote_code_units];
      rewrite ?app_nil_r.
    + apply Hesc. now rewrite Hh.
    + apply Hesc. rewrite Hl. apply orb_true_r.
    + now apply Hunit.
  - intros H.
    assert (Hc : (c < 0x10000)%N).
    { cbn [forallb] in H. apply andb_true_iff in H as [Hc _]. now apply N.ltb_lt in Hc. }
    assert (Hdl : forallb (fun c => (c <? 65536)%N) (d :: l) = true).
    { cbn [forallb] in H. now apply andb_true_iff in H as [_ H]. }
    assert (Hl' : forallb (fun c => (c <? 65536)%N) l = true).
    { cbn [forallb] in Hdl. now apply andb_true_iff in Hdl as [_ H']. }
    rewrite quote_code_units_cons.
    destruct (is_high_surrogate c) eqn:Hh;
      [destruct (is_low_surrogate d) eqn:Hd | destruct (is_low_surrogate c) eqn:Hl].
    + rewrite utf16_well_formed_cons, Hh, Hd. now apply IHl.
    + apply utf16_well_formed_app; [|now apply IHd]. apply Hesc. now rewrite Hh.
    + apply utf16_well_formed_app; [|now apply IHd]. apply Hesc.
      rewrite Hl. apply orb_true_r.
    + apply utf16_well_formed_app; [|now apply IHd]. now apply Hunit.
Qed.

(** A string without unescaped white space is carried as [JSON.stringify]
    writes it. *)
Lemma carried_keeps (s : jsstring) :
  keeps_its_characters s = true -> carried s = quote_code_units s.
Proof.
  unfold keeps_its_characters, carried.
  assert (Hascii_esc : forall c, (c < 0x10000)%N ->
            remove_whitespace (UnicodeEscape c) = UnicodeEscape c).
  { intros c Hc. unfold UnicodeEscape, remove_whitespace, hex_digit.
    assert (c / 4096 < 16)%N by (apply N.Div0.div_lt_upper_bound; lia).
    pose proof (N.mod_lt (c / 256) 16 ltac:(lia)).
    pose proof (N.mod_lt (c / 16) 16 ltac:(lia)).
    pose proof (N.mod_lt c 16 ltac:(lia)).
    assert (Hd : forall n, (n < 16)%N ->
               is_whitespace (if (n <? 10)%N then 48 + n else 87 + n)%N = false).
    { intros n Hn. destruct (N.ltb_spec n 10); unfold is_whitespace; decide_tests;
        repeat match goal with
        | |- context [(?a =? ?b)%N] =>
            replace (a =? b)%N with false by (symmetry; apply N.eqb_neq; lia)
        end; reflexivity. }
    cbn [filter]. rewrite !Hd by assumption. reflexivity. }
  assert (Hunit : forall c, negb (unescaped_whitespace c) = true ->
            remove_whitespace (quote_code_unit c) = quote_code_unit c).
  { intros c Hw. unfold quote_code_unit.
    repeat match goal with
    | |- context [(c =? ?b)%N] => destruct (N.eqb_spec c b); [reflexivity|]
    end.
    destruct (N.ltb_spec c 32); [apply Hascii_esc; lia|].
    unfold remove_whitespace. cbn [filter].
    unfold unescaped_whitespace in Hw.
    replace (32 <=? c)%N with true in Hw by (symmetry; apply N.leb_le; lia).
    rewrite andb_true_r in Hw. now rewrite Hw. }
  assert (Hesc : forall c, is_high_surrogate c || is_low_surrogate c = true ->
            remove_whitespace (UnicodeEscape c) = UnicodeEscape c).
  { intros c H. apply surrogate_range in H. apply Hascii_esc. lia. }
  induction s as [| c | c d l IHd IHl] using list_ind_pairs.
  - reflexivity.
  - cbn [forallb]. intros H. apply andb_true_iff in H as [Hc _].
    rewrite quote_code_units_cons.
    destruct (is_high_surrogate c) eqn:Hh;
      [|destruct (is_low_surrogate c) eqn:Hl]; cbn [quote_code_units];
      rewrite ?app_nil_r.
    + apply Hesc. now rewrite Hh.
    + apply Hesc. rewrite Hl. apply orb_true_r.
    + now apply Hunit.
  - intros H.
    assert (Hc : negb (unescaped_whitespace c) = true).
    { cbn [forallb] in H. now apply andb_true_iff in H as [Hc _]. }
    assert (Hdl : forallb (fun c => negb (unescaped_whitespace c)) (d :: l) = true).
    { cbn [forallb] in H. now apply andb_true_iff in H as [_ H]. }
    assert (Hl' : forallb (fun c => negb (unescaped_whitespace c)) l = true).
    { cbn [forallb] in Hdl. now apply andb_true_iff in Hdl as [_ H']. }
    rewrite quote_code_units_cons.
    destruct (is_high_surrogate c) eqn:Hh;
      [destruct (is_low_surrogate d) eqn:Hd | destruct (is_low_surrogate c) eqn:Hl].
    + cbn [remove_whitespace filter].
      rewrite (surrogate_not_whitespace c) by (rewrite Hh; reflexivity).
      rewrite (surrogate_not_whitespace d) by (rewrite Hd; apply orb_true_r).
      cbn [negb]. f_equal. f_equal. now apply IHl.
    + rewrite remove_whitespace_app, Hesc by (now rewrite Hh).
      f_equal. now apply IHd.
    + rewrite remove_whitespace_app, Hesc by (rewrite Hl; apply orb_true_r).
      f_equal. now apply IHd.
    + rewrite remove_whitespace_app, Hunit by assumption.
      f_equal. now apply IHd.
Qed.

(* ================================================================= *)
(** * Reading a policy document back *)

Lemma strip_prefix_app (p x : jsstring) :
  SignedAccessToken.strip_prefix p (p ++ x) = Some x.
Proof.
  induction p as [|c p IH]; cbn; [reflexivity|].
  now rewrite N.eqb_refl.
Qed.

Lemma uint_of_decimal_digits (u : Decimal.uint) :
  SignedAccessToken.uint_of_digits (decimal_digits u) = Some u.
Proof.
  induction u; cbn [decimal_digits SignedAccessToken.uint_of_digits];
    [reflexivity | ..]; rewrite IHu; reflexivity.
Qed.

Lemma decimal_digits_are_digits (u : Decimal.uint) :
  forallb SignedAccessToken.is_digit (decimal_digits u) = true.
Proof. induction u; cbn; auto. Qed.

Lemma decimal_digits_nonempty (u : Decimal.uint) :
  u <> Decimal.Nil -> decimal_digits u <> [].
Proof. destruct u; cbn; congruence. Qed.

(** The run of digits stops at the first character that is no digit. *)
Lemma span_digits_app (d : jsstring) (x : N) (rest : jsstring) :
  forallb SignedAccessToken.is_digit d = true ->
  SignedAccessToken.is_digit x = false ->
  SignedAccessToken.span_digits (d ++ x :: rest) = (d, x :: rest).
Proof.
  intros Hd Hx. induction d as [|y d IH]; cbn [app SignedAccessToken.span_digits].
  - now rewrite Hx.
  - cbn [forallb] in Hd. apply andb_true_iff in Hd as [Hy Hd].
    now rewrite Hy, (IH Hd).
Qed.

Lemma Z_to_int_nonnil (n : Z) (u : Decimal.uint) :
  Z.to_int n = Decimal.Pos u \/ Z.to_int n = Decimal.Neg u -> u <> Decimal.Nil.
Proof.
  destruct n as [|p|p]; cbn; intros [[= <-]|[= <-]];
    first [discriminate | apply DecimalPos.Unsigned.to_uint_nonnil].
Qed.

(** A printed integer is read back, up to the first character that is no
    digit. *)
Lemma read_integer_Number_toString (n : Z) (x : N) (rest : jsstring) :
  SignedAccessToken.is_digit x = false ->
  SignedAccessToken.read_integer (Number_toString n ++ x :: rest)
  = Some (n, x :: rest).
Proof.
  intros Hx. pose proof (DecimalZ.of_to n) as Hback.
  unfold Number_toString, SignedAccessToken.read_integer.
  destruct (Z.to_int n) as [u|u] eqn:Hu.
  - pose proof (Z_to_int_nonnil n u (or_introl Hu)) as Hnn.
    pose proof (decimal_digits_are_digits u) as Hd.
    pose proof (uint_of_decimal_digits u) as Hdig.
    destruct (decimal_digits u) as [|y ds] eqn:E.
    + now apply decimal_digits_nonempty in E.
    + cbn [app].
      assert (Hy : (y =? 45)%N = false).
      { cbn [forallb] in Hd. apply andb_true_iff in Hd as [Hy _].
        unfold SignedAccessToken.is_digit in Hy.
        apply andb_true_iff in Hy as [Hy _]. apply N.leb_le in Hy.
        apply N.eqb_neq. lia. }
      rewrite Hy.
      change (y :: ds ++ x :: rest) with ((y :: ds) ++ x :: rest).
      rewrite span_digits_app by assumption.
      unfold SignedAccessToken.integer_of_digits. now rewrite Hdig, Hback.
  - pose proof (Z_to_int_nonnil n u (or_intror Hu)) as Hnn.
    pose proof (decimal_digits_are_digits u) as Hd.
    pose proof (uint_of_decimal_digits u) as Hdig.
    cbn [app]. change (45 =? 45)%N with true. cbv iota.
    rewrite span_digits_app by assumption.
    unfold SignedAccessToken.integer_of_digits.
    destruct (decimal_digits u) as [|y ds] eqn:E.
    + now apply decimal_digits_nonempty in E.
    + now rewrite Hdig, Hback.
Qed.

Lemma canonical_policy_json_well_formed (resource : jsstring) (expiresAt : Z) :
  is_jsstring resource = true ->
  utf16_well_formed (SignedAccessToken.canonical_policy_json resource expiresAt) = true.
Proof.
  intros H. unfold SignedAccessToken.canonical_policy_json,
    SignedAccessToken.canonical_policy_document.
  apply utf16_well_formed_app; [now apply utf16_well_formed_ascii|].
  apply utf16_well_formed_app; [now apply quote_code_units_well_formed|].
  apply utf16_well_formed_ascii.
  apply is_ascii_app; [reflexivity|].
  apply is_ascii_app; [apply Number_toString_ascii | reflexivity].
Qed.

(** The text of a canonical document is read back to its resource and its
    expiry. *)
Lemma parse_canonical_policy_json (resource : jsstring) (expiresAt : Z) :
  is_jsstring resource = true ->
  SignedAccessToken.parse_policy
    (Buffer_from (SignedAccessToken.canonical_policy_json resource expiresAt))
  = Some (resource, expiresAt).
Proof.
  intros H. unfold SignedAccessToken.parse_policy.
  rewrite <- (app_nil_r (Buffer_from _)).
  rewrite utf8_decode_Buffer_from by now apply canonical_policy_json_well_formed.
  cbn [SignedAccessToken.utf8_decode option_map]. rewrite app_nil_r.
  unfold SignedAccessToken.canonical_policy_json,
    SignedAccessToken.canonical_policy_document.
  rewrite strip_prefix_app.
  change SignedAccessToken.document_middle
    with (34%N :: tl SignedAccessToken.document_middle) at 1.
  cbn [app]. rewrite unquote_quote_code_units.
  rewrite strip_prefix_app.
  change SignedAccessToken.document_tail
    with (125%N :: tl SignedAccessToken.document_tail) at 1.
  rewrite read_integer_Number_toString by reflexivity.
  reflexivity.
Qed.

Lemma starts_with_same (s : jsstring) : starts_with s s = true.
Proof. induction s as [|c s IH]; cbn; [reflexivity|]. now rewrite N.eqb_refl. Qed.

Lemma resource_matches_refl (mode : SignedAccessToken.MatchingMode) (r : jsstring) :
  SignedAccessToken.resource_matches mode r r = true.
Proof. destruct mode; [apply jsstring_eqb_refl | apply starts_with_same]. Qed.

(* ================================================================= *)
(** * The query of a signed URL *)

Lemma lacks_app (c : N) (a b : jsstring) :
  lacks c (a ++ b) = lacks c a && lacks c b.
Proof. apply forallb_app. Qed.

Lemma cut_lacks (c : N) (a b : jsstring) :
  lacks c a = true -> SignedAccessToken.cut c (a ++ c :: b) = (a, Some b).
Proof.
  unfold lacks. induction a as [|x a IH]; cbn [forallb app SignedAccessToken.cut].
  - now rewrite N.eqb_refl.
  - intros H. apply andb_true_iff in H as [Hx Ha]. apply negb_true_iff in Hx.
    now rewrite Hx, (IH Ha).
Qed.

Lemma cut_none (c : N) (a : jsstring) :
  lacks c a = true -> SignedAccessToken.cut c a = (a, None).
Proof.
  unfold lacks. induction a as [|x a IH]; cbn [forallb SignedAccessToken.cut].
  - reflexivity.
  - intros H. apply andb_true_iff in H as [Hx Ha]. apply negb_true_iff in Hx.
    now rewrite Hx, (IH Ha).
Qed.

Lemma split_on_none (c : N) (a : jsstring) :
  lacks c a = true -> SignedAccessToken.split_on c a = [a].
Proof.
  unfold lacks. induction a as [|x a IH]; cbn [forallb SignedAccessToken.split_on].
  - reflexivity.
  - intros H. apply andb_true_iff in H as [Hx Ha]. apply negb_true_iff in Hx.
    now rewrite Hx, (IH Ha).
Qed.

Lemma split_on_lacks (c : N) (a b : jsstring) :
  lacks c a = true ->
  SignedAccessToken.split_on c (a ++ c :: b) = a :: SignedAccessToken.split_on c b.
Proof.
  unfold lacks. induction a as [|x a IH]; cbn [forallb app SignedAccessToken.split_on].
  - now rewrite N.eqb_refl.
  - intros H. apply andb_true_iff in H as [Hx Ha]. apply negb_true_iff in Hx.
    now rewrite Hx, (IH Ha).
Qed.

(** Encoded text has none of the characters that structure a URL. *)
Lemma base64url_lacks (b : bytes) :
  lacks 35 (base64url b) = true /\ lacks 38 (base64url b) = true.
Proof.
  pose proof (base64url_alphabet_only b) as H. unfold lacks.
  split; apply forallb_forall; intros x Hx;
    rewrite Forall_forall in H; specialize (H x Hx);
    apply negb_true_iff, N.eqb_neq; intros ->;
    revert H; cbn; intuition discriminate.
Qed.

(** The token a signed URL presents is the one appended to the resource
    URL, when the resource URL has no query and no fragment, and the key
    identifier no [&] and no [#]. *)
Lemma read_token_appended (url p s k : jsstring) :
  lacks 63 url = true -> lacks 35 url = true ->
  lacks 35 p = true -> lacks 38 p = true ->
  lacks 35 s = true -> lacks 38 s = true ->
  lacks 35 k = true -> lacks 38 k = true ->
  SignedAccessToken.read_token
    (url ++ lit "?Policy=" ++ p ++ lit "&Signature=" ++ s ++ lit "&Key-Pair-Id=" ++ k)
  = Some {| SignedAccessToken.Policy := p;
            SignedAccessToken.Signature := s;
            SignedAccessToken.KeyPairId := k |}.
Proof.
  intros Hq Hf Hp35 Hp38 Hs35 Hs38 Hk35 Hk38.
  unfold SignedAccessToken.read_token, SignedAccessToken.query_of.
  rewrite (cut_none 35)
    by (rewrite !lacks_app, Hf, Hp35, Hs35, Hk35; reflexivity).
  cbn [fst].
  change (lit "?Policy=") with (63%N :: lit "Policy=").
  cbn [app]. rewrite cut_lacks by exact Hq. cbn [snd].
  unfold SignedAccessToken.parameters.
  change (lit "&Signature=") with (38%N :: lit "Signature=").
  change (lit "&Key-Pair-Id=") with (38%N :: lit "Key-Pair-Id=").
  rewrite (app_assoc (lit "Policy=") p).
  cbn [app].
  rewrite split_on_lacks by (rewrite lacks_app, Hp38; reflexivity).
  rewrite (app_assoc (lit "Signature=") s).
  rewrite split_on_lacks by (rewrite lacks_app, Hs38; reflexivity).
  rewrite split_on_none by (rewrite lacks_app, Hk38; reflexivity).
  cbn [map].
  change (lit "Policy=" ++ p) with (lit "Policy" ++ 61%N :: p).
  change (lit "Signature=" ++ s) with (lit "Signature" ++ 61%N :: s).
  change (lit "Key-Pair-Id=" ++ k) with (lit "Key-Pair-Id" ++ 61%N :: k).
  rewrite !cut_lacks by reflexivity.
  reflexivity.
Qed.



(** For a URL without unescaped white space the generator signs the
    canonical JSON text of the URL and the expiry. *)
Lemma policyString_json (url : jsstring) (expires : Z) :
  keeps_its_characters url = true ->
  SignedURLGenerator.policyString url expires
  = SignedAccessToken.canonical_policy_json url expires.
Proof.
  intros H. rewrite policyString_shape, (carried_keeps url H). reflexivity.
Qed.

(* ================================================================= *)
(** * The signed URL *)

(** The string a call returns, for any URL and any number of seconds. *)
Lemma generateSignedURL_form
    (rsa_sha1_sign : jsstring -> bytes -> bytes) (Date_now : Z)
    (self : SignedURLGenerator.t) (url : jsstring) (expiresIn : option Z) :
  let expires :=
    SignedURLGenerator.expires Date_now
      (match expiresIn with Some n => n | None => 3600%Z end) in
  let document := Buffer_from (SignedURLGenerator.policyString url expires) in
  SignedURLGenerator.generateSignedURL rsa_sha1_sign Date_now self url expiresIn
  = url ++ lit "?Policy=" ++ base64url document
        ++ lit "&Signature="
        ++ base64url (rsa_sha1_sign (SignedURLGenerator.privateKey self) document)
        ++ lit "&Key-Pair-Id=" ++ SignedURLGenerator.publicKeyId self.
Proof.
  cbv zeta.
  unfold SignedURLGenerator.generateSignedURL, SignedURLGenerator.policyBase64,
    SignedURLGenerator.signature.
  now rewrite !url_safe_base64.
Qed.


(** C3, as the code has it.  For every URL that has no white space and no
    character that [JSON.stringify] escapes, and for every expiry that is a
    safe integer, the policy document the generator signs is exactly the
    canonical document: the fixed text with the URL, as given, and the
    decimal expiry substituted.  It holds no white space. *)
Theorem policyString_canonical (url : jsstring) (expires : Z)
    (Hurl : json_verbatim url = true)
    (Hexpires : Number_isSafeInteger expires = true) :
  SignedURLGenerator.policyString url expires
  = SignedAccessToken.canonical_policy_document url expires /\
  SignedURLGenerator.policyString url expires
  = SignedAccessToken.double_quoted "{'Statement':[{'Resource':'"
    ++ url
    ++ SignedAccessToken.double_quoted "','Condition':{'DateLessThan':{'AWS:EpochTime':"
    ++ Number_toString expires
    ++ lit "}}}]}" /\
  Buffer_from (SignedURLGenerator.policyString url expires)
  = Buffer_from (SignedAccessToken.canonical_policy_document url expires) /\
  Forall (fun c => is_whitespace c = false)
         (SignedURLGenerator.policyString url expires).
Proof.
  assert (E : SignedURLGenerator.policyString url expires
              = SignedAccessToken.canonical_policy_document url expires).
  { now rewrite policyString_shape, (carried_verbatim url Hurl). }
  split; [exact E|]. split; [exact E|]. split; [now rewrite E|].
  unfold SignedURLGenerator.policyString, remove_whitespace.
  apply Forall_forall. intros c Hc.
  apply filter_In in Hc as [_ Hc]. now apply negb_true_iff in Hc.
Qed.

Lemma policyString_canonical_witness :
  json_verbatim (lit "https://d123456789.cloudfront.net/app.html") = true /\
  Number_isSafeInteger 1700003600 = true /\
  SignedURLGenerator.policyString (lit "https://d123456789.cloudfront.net/app.html")
                                  1700003600
  = SignedAccessToken.canonical_policy_document
      (lit "https://d123456789.cloudfront.net/app.html") 1700003600.
Proof.
  split; [reflexivity|]. split; [reflexivity|].
  exact (proj1 (policyString_canonical
                  (lit "https://d123456789.cloudfront.net/app.html") 1700003600
                  eq_refl eq_refl)).
Defined.

(** C3 as stated fails.  A space in the URL is removed from the document,
    which then holds another resource than the URL given; and a double quote
    in the URL stands escaped in the document, which then does not contain the
    URL as given. *)
Lemma policyString_not_canonical :
  SignedURLGenerator.policyString (lit "https://h/a b.html") 1700003600
  = SignedAccessToken.canonical_policy_document (lit "https://h/ab.html") 1700003600 /\
  SignedURLGenerator.policyString (lit "https://h/a b.html") 1700003600
  <> SignedAccessToken.canonical_policy_document (lit "https://h/a b.html") 1700003600 /\
  SignedURLGenerator.policyString [97; 34; 98]%N 1700003600
  = SignedAccessToken.canonical_policy_document [97; 92; 34; 98]%N 1700003600 /\
  SignedURLGenerator.policyString [97; 34; 98]%N 1700003600
  <> SignedAccessToken.canonical_policy_document [97; 34; 98]%N 1700003600.
Proof.
  split; [vm_compute; reflexivity|].
  split; [intros H; vm_compute in H; discriminate H|].
  split; [vm_compute; reflexivity|].
  intros H; vm_compute in H; discriminate H.
Qed.




(* ================================================================= *)
(** * Issuing and verifying *)

Section RoundTrip.

Variable rsa_sha1_sign : jsstring -> bytes -> bytes.
Variable Key : Type.
Variable rsa_sha1_verify : Key -> bytes -> bytes -> bool.
Variable PublicKeyFor : jsstring -> option Key.
Variable mode : SignedAccessToken.MatchingMode.

(** What the verifier answers to the token of a signed URL, at any time
    and for any requested resource, when the token was made for a URL without
    unescaped white space: the signature verifies; the token is refused when
    it has expired, or when its resource does not match the requested one. *)
Lemma Verify_issued (now : Z) (priv keyPairId : jsstring) (pub : Key)
    (url requested : jsstring) (expiresAt : Z) :
  is_jsstring url = true ->
  keeps_its_characters url = true ->
  PublicKeyFor keyPairId = Some pub ->
  SignedAccessToken.keys_match rsa_sha1_sign rsa_sha1_verify priv pub ->
  let document := Buffer_from (SignedURLGenerator.policyString url expiresAt) in
  SignedAccessToken.Verify Key rsa_sha1_verify PublicKeyFor mode now
    {| SignedAccessToken.Policy := base64url document;
       SignedAccessToken.Signature := base64url (rsa_sha1_sign priv document);
       SignedAccessToken.KeyPairId := keyPairId |}
    requested
  = if negb (now <=? expiresAt)%Z then inl SignedAccessToken.Expired
    else if negb (SignedAccessToken.resource_matches mode url requested)
    then inl SignedAccessToken.ResourceMismatch
    else inr tt.
Proof.
  intros Hstr Hurl Hkey Hmatch. cbv zeta.
  unfold SignedAccessToken.Verify.
  cbn [SignedAccessToken.KeyPairId SignedAccessToken.Policy SignedAccessToken.Signature].
  rewrite Hkey, !base64url_decode_encode.
  rewrite (policyString_json url expiresAt Hurl).
  rewrite (parse_canonical_policy_json url expiresAt Hstr).
  now rewrite Hmatch.
Qed.

(** C4, as the code has it.  For every URL with no white space that JSON
    leaves unescaped, no query and no fragment, every [ttl > 0] for which the
    expiry is a safe integer, every key identifier without [&] and [#], and
    every key pair that matches, the URL that [Sign] returns presents a token
    that verifies for the URL it was signed for, at the time of signing and
    in either matching mode; and at that time [now() < expiry]. *)
Theorem Verify_Sign_round_trip (Date_now : Z) (priv keyPairId : jsstring) (pub : Key)
    (url : jsstring) (ttl : Z)
    (Httl : (0 < ttl)%Z)
    (Hsafe : Number_isSafeInteger (Date_now / 1000 + ttl) = true)
    (Hstr : is_jsstring url = true)
    (Hurl : keeps_its_characters url = true)
    (Hquery : lacks 63 url = true)
    (Hfragment : lacks 35 url = true)
    (Hkid : lacks 38 keyPairId = true /\ lacks 35 keyPairId = true)
    (Hkey : PublicKeyFor keyPairId = Some pub)
    (Hmatch : SignedAccessToken.keys_match rsa_sha1_sign rsa_sha1_verify priv pub) :
  SignedAccessToken.Verify_Sign rsa_sha1_sign Key rsa_sha1_verify PublicKeyFor mode
    Date_now url ttl priv keyPairId
  = inr (inr tt) /\
  (Date_now / 1000 < SignedURLGenerator.expires Date_now ttl)%Z.
Proof.
  pose proof (expires_exact Date_now ttl Hsafe) as Hexp.
  split; [|lia].
  unfold SignedAccessToken.Verify_Sign, SignedAccessToken.Sign.
  rewrite generateSignedURL_form. cbv zeta.
  cbn [SignedURLGenerator.privateKey SignedURLGenerator.publicKeyId].
  unfold SignedAccessToken.Verify_signed_URL.
  destruct Hkid as [Hk38 Hk35].
  rewrite read_token_appended;
    try assumption; try apply base64url_lacks.
  rewrite (Verify_issued (Date_now / 1000) priv keyPairId pub url url _
             Hstr Hurl Hkey Hmatch).
  rewrite Hexp.
  destruct (Z.leb_spec (Date_now / 1000) (Date_now / 1000 + ttl)); [|lia].
  now rewrite resource_matches_refl.
Qed.

End RoundTrip.

Lemma demo_keys_match :
  SignedAccessToken.keys_match demo_sign demo_verify (lit "PEM") (lit "PEM").
Proof. intros message. apply bytes_eqb_refl. Qed.

Lemma Verify_Sign_round_trip_witness :
  SignedAccessToken.Verify_Sign demo_sign jsstring demo_verify demo_keys
    SignedAccessToken.ExactResource 1700000000999
    (lit "https://d123456789.cloudfront.net/app.html") 3600
    (lit "PEM") (lit "K2EXAMPLE123456")
  = inr (inr tt) /\
  (1700000000999 / 1000 < SignedURLGenerator.expires 1700000000999 3600)%Z.
Proof.
  apply (Verify_Sign_round_trip demo_sign jsstring demo_verify demo_keys
           SignedAccessToken.ExactResource 1700000000999
           (lit "PEM") (lit "K2EXAMPLE123456") (lit "PEM")
           (lit "https://d123456789.cloudfront.net/app.html") 3600).
  - lia.
  - reflexivity.
  - reflexivity.
  - reflexivity.
  - reflexivity.
  - reflexivity.
  - split; reflexivity.
  - reflexivity.
  - exact demo_keys_match.
Defined.

(** C4 as stated fails, with [ttl > 0] and matching keys.  For a URL with
    a space the token carries the URL without the space, and the verifier
    refuses it for the URL it was signed for, in either matching mode.  For a
    URL with a query, and for one with a fragment, the string that [Sign]
    returns has no [Policy] parameter: it presents no token.  For a key
    identifier with an ampersand the URL presents another identifier, under
    which the provider holds no key. *)
Lemma Verify_Sign_round_trip_fails :
  (0 < 3600)%Z /\
  demo_keys (lit "K2EXAMPLE123456") = Some (lit "PEM") /\
  demo_odd_keys (lit "K2&EXAMPLE") = Some (lit "PEM") /\
  SignedAccessToken.keys_match demo_sign demo_verify (lit "PEM") (lit "PEM") /\
  SignedAccessToken.Verify_Sign demo_sign jsstring demo_verify demo_keys
    SignedAccessToken.ExactResource 1700000000999
    (lit "https://h/a b.html") 3600 (lit "PEM") (lit "K2EXAMPLE123456")
  = inr (inl SignedAccessToken.ResourceMismatch) /\
  SignedAccessToken.Verify_Sign demo_sign jsstring demo_verify demo_keys
    SignedAccessToken.PrefixOfResource 1700000000999
    (lit "https://h/a b.html") 3600 (lit "PEM") (lit "K2EXAMPLE123456")
  = inr (inl SignedAccessToken.ResourceMismatch) /\
  SignedAccessToken.read_token
    (SignedURLGenerator.generateSignedURL demo_sign 1700000000999 demo_generator
       (lit "https://h/a?x=1") (Some 3600%Z))
  = None /\
  SignedAccessToken.Verify_Sign demo_sign jsstring demo_verify demo_keys
    SignedAccessToken.ExactResource 1700000000999
    (lit "https://h/a?x=1") 3600 (lit "PEM") (lit "K2EXAMPLE123456")
  = inr (inl SignedAccessToken.Malformed) /\
  SignedAccessToken.Verify_Sign demo_sign jsstring demo_verify demo_keys
    SignedAccessToken.ExactResource 1700000000999
    (lit "https://h/a#top") 3600 (lit "PEM") (lit "K2EXAMPLE123456")
  = inr (inl SignedAccessToken.Malformed) /\
  SignedAccessToken.Verify_Sign demo_sign jsstring demo_verify demo_odd_keys
    SignedAccessToken.ExactResource 1700000000999
    (lit "https://h/a.html") 3600 (lit "PEM") (lit "K2&EXAMPLE")
  = inr (inl SignedAccessToken.UnknownKey).
Proof.
  split; [lia|]. split; [reflexivity|]. split; [reflexivity|].
  split; [exact demo_keys_match|].
  repeat split; vm_compute; reflexivity.
Qed.

(** C5, as the code has it.  [Sign] never fails: for every [ttl], positive
    or not, for which [floor(Date.now() / 1000) + ttl] is a safe integer, it
    returns the signed URL, and the policy in it is the document whose
    expiry is this sum. *)
Theorem Sign_sets_expiry
    (rsa_sha1_sign : jsstring -> bytes -> bytes) (Date_now : Z)
    (url : jsstring) (ttl : Z) (privateKey keyPairId : jsstring)
    (Hsafe : Number_isSafeInteger (Date_now / 1000 + ttl) = true) :
  let expiresAt := (Date_now / 1000 + ttl)%Z in
  let document :=
    Buffer_from (SignedAccessToken.document_head ++ carried url
                 ++ SignedAccessToken.document_middle ++ Number_toString expiresAt
                 ++ SignedAccessToken.document_tail) in
  SignedAccessToken.Sign rsa_sha1_sign Date_now url ttl privateKey keyPairId
  <> inl SignedAccessToken.InvalidTTL /\
  SignedAccessToken.Sign rsa_sha1_sign Date_now url ttl privateKey keyPairId
  = inr (url ++ lit "?Policy=" ++ base64url document
             ++ lit "&Signature=" ++ base64url (rsa_sha1_sign privateKey document)
             ++ lit "&Key-Pair-Id=" ++ keyPairId) /\
  SignedAccessToken.base64url_decode (base64url document) = Some document /\
  SignedURLGenerator.expires Date_now ttl = expiresAt.
Proof.
  cbv zeta. split; [discriminate|].
  split; [|split; [apply base64url_decode_encode | now apply expires_exact]].
  unfold SignedAccessToken.Sign. rewrite generateSignedURL_form. cbv zeta.
  rewrite (expires_exact _ _ Hsafe), policyString_shape. reflexivity.
Qed.

Lemma Sign_sets_expiry_witness :
  SignedAccessToken.Sign demo_sign 1700000000999 (lit "https://h/a.html") (-60)
    (lit "PEM") (lit "K2EXAMPLE123456")
  <> inl SignedAccessToken.InvalidTTL /\
  SignedURLGenerator.expires 1700000000999 (-60) = 1699999940%Z.
Proof.
  refine ((fun H => conj (proj1 H) (proj2 (proj2 (proj2 H))))
            (Sign_sets_expiry demo_sign 1700000000999 (lit "https://h/a.html") (-60)
               (lit "PEM") (lit "K2EXAMPLE123456") _)).
  reflexivity.
Defined.

(** C5 as stated fails.  With [ttl = 0] and with a negative [ttl] the call
    fails with no error: it returns a signed URL.  And with a positive [ttl]
    of 2^53 seconds the expiry is not [now() + ttl]: the sum is no safe
    integer, and the addition rounds it. *)
Lemma Sign_has_no_ttl_check :
  SignedAccessToken.Sign demo_sign 1700000000999 (lit "https://h/a.html") 0
    (lit "PEM") (lit "K2EXAMPLE123456")
  <> inl SignedAccessToken.InvalidTTL /\
  SignedAccessToken.Sign demo_sign 1700000000999 (lit "https://h/a.html") (-60)
    (lit "PEM") (lit "K2EXAMPLE123456")
  <> inl SignedAccessToken.InvalidTTL /\
  SignedURLGenerator.expires 1700000001000 (2 ^ 53)
  <> (1700000001000 / 1000 + 2 ^ 53)%Z.
Proof.
  split; [discriminate|]. split; [discriminate|].
  intros H. vm_compute in H. discriminate H.
Qed.

(* ================================================================= *)
(** * More about the construct *)

(** Every behaviour of the distribution, the default one included, refuses
    plain HTTP: its viewer protocol policy is [HTTPS_ONLY] or
    [REDIRECT_TO_HTTPS], never [ALLOW_ALL]. *)
Theorem every_behavior_enforces_HTTPS (props : WebUIProps) :
  Forall (fun e => viewerProtocolPolicy (snd e) <> ALLOW_ALL)
         (all_behaviors (new_websiteDistribution props)).
Proof.
  repeat apply Forall_cons; try apply Forall_nil; cbn; discriminate.
Qed.

(** The path patterns of the additional behaviours are pairwise distinct,
    and none of them is the catch-all: no rule is declared twice. *)
Theorem additional_patterns_distinct (props : WebUIProps) :
  NoDup (map fst (all_behaviors (new_websiteDistribution props))).
Proof.
  cbn [all_behaviors new_websiteDistribution additionalBehaviors defaultBehavior
       new_additionalBehaviors map fst].
  repeat (apply NoDup_cons;
          [cbn [In]; intros H;
           repeat (destruct H as [H|H]; [vm_compute in H; discriminate H|]);
           exact H|]).
  apply NoDup_nil.
Qed.

(** Every origin of the distribution reads its bucket through the one
    origin access identity that [OriginAccessIdentityName] names, and the
    bucket is the website bucket or the login bucket of the properties. *)
Theorem origins_share_the_access_identity (props : WebUIProps) :
  Forall (fun e =>
            originAccessIdentityName (originAccessIdentity (origin (snd e)))
            = OriginAccessIdentityName props /\
            (bucket (origin (snd e)) = new_websiteBucket \/
             bucket (origin (snd e))
             = fromBucketName (lit "LoginBucket") (loginBucketName props)))
         (all_behaviors (new_websiteDistribution props)).
Proof.
  repeat apply Forall_cons; try apply Forall_nil; cbn; auto.
Qed.

(** The construct does not read [deploymentName]: whatever it is set to,
    the construct built is the same. *)
Theorem deploymentName_is_ignored (p : WebUIProps) (name : option jsstring) :
  new_WebUI (with_deploymentName name p) = new_WebUI p.
Proof. reflexivity. Qed.

(** The behaviours that list no trusted key group are the five login
    pages, the two icons and the two vendor-chunk rules; the default
    behaviour and [/css/*], [/js/*], [/assets/*] list the key group built
    from [viewersPublicKeyId]. *)
Theorem unsigned_behaviors (props : WebUIProps) :
  map fst (filter (fun e => negb (requires_signature (snd e)))
                  (all_behaviors (new_websiteDistribution props)))
  = [lit "/login.html"; lit "/apps-login.html"; lit "/eth-login.html";
     lit "/idpresponse.html"; lit "/apps-idpresponse.html";
     lit "/favicon.png"; lit "/logo.png";
     lit "/css/chunk-vendors*"; lit "/js/chunk-vendors*"] /\
  Forall (fun e => requires_signature (snd e) = true ->
                   trustedKeyGroups (snd e)
                   = Some [ {| kg_id := lit "ViewersKeyGroup";
                               items := [fromPublicKeyId (lit "ViewersKey")
                                           (viewersPublicKeyId props)] |} ])
         (all_behaviors (new_websiteDistribution props)).
Proof.
  split; [reflexivity|].
  repeat apply Forall_cons; try apply Forall_nil; cbn;
    intros H; try discriminate H; reflexivity.
Qed.

(* ================================================================= *)
(** * The stack *)

(** The stack never passes [AppsLoginUrl] to the construct: whatever its
    properties, an origin 403 is answered 200 with [/login.html], and
    [/apps-login.html] is never the fallback page. *)
Theorem stack_403_page_is_login (props : NerdiylandWebUi.Props) :
  let d := websiteDistribution (NerdiylandWebUi.webUi (NerdiylandWebUi.new props)) in
  Map (errorResponses d) 403 = (200%Z, Some (lit "/login.html")) /\
  Forall (fun r => responsePagePath r <> lit "/apps-login.html") (errorResponses d).
Proof.
  cbv zeta. split; [reflexivity|].
  repeat apply Forall_cons; try apply Forall_nil; cbn;
    intros H; vm_compute in H; discriminate H.
Qed.

(** What the stack forwards: the certificate of the distribution is the one
    of [certificateArn], its domain names are [deliveryAliases], the trusted
    key is [viewersPublicKeyId], and the bucket policy names the canonical
    user of the properties. *)
Theorem stack_forwards_its_props (props : NerdiylandWebUi.Props) :
  let ui := NerdiylandWebUi.webUi (NerdiylandWebUi.new props) in
  certificateArn (certificate (websiteDistribution ui))
    = Some (NerdiylandWebUi.certificateArn props) /\
  domainNames (websiteDistribution ui) = NerdiylandWebUi.deliveryAliases props /\
  map publicKeyId (items (trustedKeyGroup ui))
    = [NerdiylandWebUi.viewersPublicKeyId props] /\
  map principals (websiteBucketPolicy ui)
    = [[CanonicalUserPrincipal
          (NerdiylandWebUi.originAccessIdentityCanonicalUserId props)]].
Proof. cbv zeta. repeat split. Qed.

(** Under first-match resolution of the declared table, the paths served
    without a signed token are exactly the five login pages and the two
    icons (query string and fragment apart); every other path, the vendor
    chunks included, needs a signed token. *)
Theorem public_paths (props : WebUIProps) (path : jsstring) :
  requireSignedToken (Resolve (table_of props) path) = false <->
  In (normalize path)
     [lit "/login.html"; lit "/apps-login.html"; lit "/eth-login.html";
      lit "/idpresponse.html"; lit "/apps-idpresponse.html";
      lit "/favicon.png"; lit "/logo.png"].
Proof.
  split.
  - unfold Resolve, table_of, behavior_table, new_websiteDistribution,
      new_additionalBehaviors.
    cbn [additionalBehaviors defaultBehavior behaviors tableDefault map find
         fst snd behavior_of pattern].
    generalize (normalize path); intros n.
    pose proof (js_wildcard_covers_vendor_chunks n) as Hjs.
    pose proof (css_wildcard_covers_vendor_chunks n) as Hcss.
    repeat match goal with
    | |- context [if pattern_matches ?p n then _ else _] =>
        let E := fresh "E" in destruct (pattern_matches p n) eqn:E
    end;
    cbn [requireSignedToken requires_signature trustedKeyGroups];
    intros H; try discriminate H;
    try (discriminate (Hcss eq_refl));
    try (discriminate (Hjs eq_refl));
    match goal with
    | E : pattern_matches ?p n = true |- _ =>
        change (jsstring_eqb p n = true) in E;
        apply jsstring_eqb_eq in E; rewrite <- E; cbn [In]; tauto
    end.
  - unfold Resolve. cbn [In].
    intros [H|[H|[H|[H|[H|[H|[H|[]]]]]]]]; rewrite <- H; reflexivity.
Qed.

(* ================================================================= *)
(** * More about the signed URL *)

(** The [Policy] and [Signature] parameters determine the bytes they
    encode: two byte sequences with the same URL-safe text are equal. *)
Theorem url_safe_base64_injective (a b : bytes) :
  SignedURLGenerator.url_safe (toString_base64 a)
  = SignedURLGenerator.url_safe (toString_base64 b) ->
  a = b.
Proof.
  rewrite !url_safe_base64. intros H.
  apply (f_equal SignedAccessToken.base64url_decode) in H.
  rewrite !base64url_decode_encode in H. now injection H.
Qed.

Lemma url_safe_base64_injective_witness :
  SignedURLGenerator.url_safe (toString_base64 [Byte.xfb; Byte.xff])
  = SignedURLGenerator.url_safe (toString_base64 [Byte.xfb; Byte.xff]) /\
  [Byte.xfb; Byte.xff] = [Byte.xfb; Byte.xff].
Proof.
  split; [reflexivity|].
  exact (url_safe_base64_injective [Byte.xfb; Byte.xff] [Byte.xfb; Byte.xff] eq_refl).
Defined.

(** The length of encoded text: four characters for three bytes, rounded
    up, no padding. *)
Theorem url_safe_base64_length (b : bytes) :
  List.length (SignedURLGenerator.url_safe (toString_base64 b))
  = ((4 * List.length b + 2) / 3)%nat.
Proof.
  rewrite url_safe_base64. unfold base64url.
  induction b as [| x | x y | x y z l IH] using list_ind3.
  - reflexivity.
  - reflexivity.
  - reflexivity.
  - cbn [base64_encode app List.length]. rewrite IH.
    replace (4 * S (S (S (List.length l))) + 2)%nat
      with ((4 * List.length l + 2) + 4 * 3)%nat by lia.
    rewrite Nat.div_add by lia. lia.
Qed.

(** A character that is no low surrogate ends whatever stands before it:
    the text in front is quoted on its own. *)
Lemma quote_code_units_app (s : jsstring) (c : N) (rest : jsstring) :
  is_low_surrogate c = false ->
  quote_code_units (s ++ c :: rest)
  = quote_code_units s ++ quote_code_units (c :: rest).
Proof.
  intros Hlow.
  induction s as [| a | a b l IHb IHl] using list_ind_pairs.
  - reflexivity.
  - cbn [app]. rewrite (quote_code_units_cons a (c :: rest)), (quote_code_units_cons a []).
    rewrite Hlow.
    destruct (is_high_surrogate a); [reflexivity|].
    destruct (is_low_surrogate a); cbn [quote_code_units]; now rewrite app_nil_r.
  - cbn [app]. cbn [app] in IHb.
    rewrite (quote_code_units_cons a (b :: l ++ c :: rest)),
            (quote_code_units_cons a (b :: l)).
    destruct (is_high_surrogate a).
    + destruct (is_low_surrogate b).
      * now rewrite IHl.
      * now rewrite IHb, app_assoc.
    + destruct (is_low_surrogate a); now rewrite IHb, app_assoc.
Qed.

Lemma unescaped_whitespace_quoted (w : N) (rest : jsstring) :
  unescaped_whitespace w = true ->
  is_low_surrogate w = false /\
  quote_code_units (w :: rest) = w :: quote_code_units rest.
Proof.
  unfold unescaped_whitespace. intros H. apply andb_true_iff in H as [Hw H32].
  apply N.leb_le in H32.
  assert (Hh : is_high_surrogate w = false).
  { destruct (is_high_surrogate w) eqn:E; [|reflexivity].
    rewrite (surrogate_not_whitespace w) in Hw; [discriminate|].
    now rewrite E. }
  assert (Hl : is_low_surrogate w = false).
  { destruct (is_low_surrogate w) eqn:E; [|reflexivity].
    rewrite (surrogate_not_whitespace w) in Hw; [discriminate|].
    rewrite E. apply orb_true_r. }
  split; [exact Hl|].
  rewrite quote_code_units_cons, Hh, Hl.
  rewrite quote_code_unit_verbatim; [reflexivity|].
  assert (H34 : w <> 34%N) by (intros ->; discriminate Hw).
  assert (H92 : w <> 92%N) by (intros ->; discriminate Hw).
  apply N.eqb_neq in H34, H92. rewrite H34, H92.
  destruct (N.ltb_spec w 32); [lia | reflexivity].
Qed.

Lemma carried_app (a b : jsstring) :
  starts_clean b -> carried (a ++ b) = carried a ++ carried b.
Proof.
  unfold carried. destruct b as [|c b]; cbn [starts_clean]; intros H.
  - now rewrite !app_nil_r.
  - now rewrite quote_code_units_app, remove_whitespace_app.
Qed.

(** White space inside a URL (a space, a no-break space, ...) does not
    reach the policy document: the URL with the white space and the URL
    without it have the same document, hence the same [Policy] and the same
    [Signature]. *)
Theorem policyString_ignores_whitespace
    (rsa_sha1_sign : jsstring -> bytes -> bytes) (self : SignedURLGenerator.t)
    (a b : jsstring) (w : N) (expires : Z)
    (Hw : unescaped_whitespace w = true)
    (Hb : starts_clean b) :
  SignedURLGenerator.policyString (a ++ w :: b) expires
  = SignedURLGenerator.policyString (a ++ b) expires /\
  SignedURLGenerator.policyBase64 (a ++ w :: b) expires
  = SignedURLGenerator.policyBase64 (a ++ b) expires /\
  SignedURLGenerator.signature rsa_sha1_sign self (a ++ w :: b) expires
  = SignedURLGenerator.signature rsa_sha1_sign self (a ++ b) expires.
Proof.
  assert (E : SignedURLGenerator.policyString (a ++ w :: b) expires
              = SignedURLGenerator.policyString (a ++ b) expires).
  { rewrite !policyString_shape. f_equal.
    destruct (unescaped_whitespace_quoted w b Hw) as [Hl Hq].
    rewrite (carried_app a b Hb).
    unfold carried. rewrite quote_code_units_app by exact Hl.
    rewrite Hq, remove_whitespace_app. f_equal.
    cbn [remove_whitespace filter].
    unfold unescaped_whitespace in Hw. apply andb_true_iff in Hw as [Hw _].
    now rewrite Hw. }
  unfold SignedURLGenerator.policyBase64, SignedURLGenerator.signature.
  rewrite E. split; [reflexivity|]. split; reflexivity.
Qed.

Lemma policyString_ignores_whitespace_witness :
  SignedURLGenerator.policyBase64 (lit "https://h/a b.html") 1700003600
  = SignedURLGenerator.policyBase64 (lit "https://h/ab.html") 1700003600.
Proof.
  refine (proj1 (proj2 (policyString_ignores_whitespace demo_sign demo_generator
                          (lit "https://h/a") (lit "b.html") 32 1700003600 _ _))).
  - reflexivity.
  - reflexivity.
Defined.

Lemma decimal_digits_inj (u v : Decimal.uint) :
  decimal_digits u = decimal_digits v -> u = v.
Proof.
  revert v; induction u; intros v; destruct v; cbn [decimal_digits];
    intros H; try discriminate H; try reflexivity;
    injection H as H; f_equal; now apply IHu.
Qed.

Lemma decimal_digits_number_chars (u : Decimal.uint) :
  forallb number_char (decimal_digits u) = true.
Proof. induction u; cbn; auto. Qed.

Lemma decimal_digits_no_minus (u : Decimal.uint) (rest : jsstring) :
  decimal_digits u <> 45%N :: rest.
Proof. destruct u; cbn; congruence. Qed.

Lemma Number_toString_number_chars (n : Z) :
  forallb number_char (Number_toString n) = true.
Proof.
  unfold Number_toString. destruct (Z.to_int n); cbn [forallb];
    now rewrite ?decimal_digits_number_chars.
Qed.

(** Printing an integer loses nothing. *)
Lemma Number_toString_inj (a b : Z) :
  Number_toString a = Number_toString b -> a = b.
Proof.
  unfold Number_toString. intros H.
  rewrite <- (DecimalZ.of_to a), <- (DecimalZ.of_to b).
  destruct (Z.to_int a) as [u|u], (Z.to_int b) as [v|v].
  - now rewrite (decimal_digits_inj u v H).
  - now apply decimal_digits_no_minus in H.
  - symmetry in H. now apply decimal_digits_no_minus in H.
  - injection H as H. now rewrite (decimal_digits_inj u v H).
Qed.

Lemma number_chars_end (d1 d2 : jsstring) (c1 c2 : N) (r1 r2 : jsstring) :
  forallb number_char d1 = true -> forallb number_char d2 = true ->
  number_char c1 = false -> number_char c2 = false ->
  d1 ++ c1 :: r1 = d2 ++ c2 :: r2 ->
  d1 = d2 /\ c1 :: r1 = c2 :: r2.
Proof.
  revert d2; induction d1 as [|x d1 IH]; intros [|y d2]; cbn [app forallb];
    intros H1 H2 Hc1 Hc2 E.
  - now split.
  - injection E as -> _. apply andb_true_iff in H2 as [Hy _]. congruence.
  - injection E as -> _. apply andb_true_iff in H1 as [Hx _]. congruence.
  - injection E as -> E.
    apply andb_true_iff in H1 as [_ H1]. apply andb_true_iff in H2 as [_ H2].
    destruct (IH d2 H1 H2 Hc1 Hc2 E) as [-> Hr]. now split.
Qed.

(** A canonical policy document determines its resource and its expiry. *)
Lemma canonical_policy_document_inj (x1 x2 : jsstring) (e1 e2 : Z) :
  SignedAccessToken.canonical_policy_document x1 e1
  = SignedAccessToken.canonical_policy_document x2 e2 ->
  x1 = x2 /\ e1 = e2.
Proof.
  unfold SignedAccessToken.canonical_policy_document. intros H.
  apply app_inv_head in H.
  rewrite !(app_assoc _ _ SignedAccessToken.document_tail) in H.
  apply app_inv_tail in H.
  rewrite !app_assoc in H.
  apply (f_equal (@rev N)) in H.
  rewrite !rev_app_distr in H.
  change (rev SignedAccessToken.document_middle)
    with (58%N :: tl (rev SignedAccessToken.document_middle)) in H.
  cbn [app] in H.
  apply number_chars_end in H;
    try (rewrite forallb_reversed; apply Number_toString_number_chars);
    try reflexivity.
  destruct H as [Hd Hx].
  assert (Hr : rev x1 = rev x2).
  {    apply (app_inv_head (58%N :: tl (rev SignedAccessToken.document_middle))).
    exact Hx. }
  split.
  - rewrite <- (rev_involutive x1), <- (rev_involutive x2). now rewrite Hr.
  - apply Number_toString_inj.
    rewrite <- (rev_involutive (Number_toString e1)),
            <- (rev_involutive (Number_toString e2)).
    now rewrite Hd.
Qed.

(** The policy document binds the token: two calls that sign the same
    document have the same expiry and carry the same resource; for URLs that
    are carried as given, they are calls for the same URL. *)
Theorem policyString_binds (url1 url2 : jsstring) (e1 e2 : Z) :
  SignedURLGenerator.policyString url1 e1 = SignedURLGenerator.policyString url2 e2 ->
  e1 = e2 /\ carried url1 = carried url2 /\
  (json_verbatim url1 = true -> json_verbatim url2 = true -> url1 = url2).
Proof.
  rewrite !policyString_shape. intros H.
  apply canonical_policy_document_inj in H as [Hc He].
  split; [exact He|]. split; [exact Hc|].
  intros H1 H2. now rewrite <- (carried_verbatim url1 H1), <- (carried_verbatim url2 H2).
Qed.

Lemma policyString_binds_witness :
  (1700003600 = 1700003600)%Z /\
  carried (lit "https://h/a b.html") = carried (lit "https://h/ab.html").
Proof.
  refine ((fun H => conj (proj1 H) (proj1 (proj2 H)))
            (policyString_binds (lit "https://h/a b.html") (lit "https://h/ab.html")
               1700003600 1700003600 _)).
  vm_compute. reflexivity.
Defined.

(* ================================================================= *)
(** * The authentication middleware *)

Lemma skipn_Bearer (tok : jsstring) : skipn 7 (lit "Bearer " ++ tok) = tok.
Proof. reflexivity. Qed.

(** A header [Bearer <token>] decides the token, whatever the cookies
    hold; the token is what follows the seven characters of [Bearer ]. *)
Theorem extractToken_bearer (req : AuthMiddleware.Request) (tok : jsstring)
    (Hh : AuthMiddleware.authorization req = Some (lit "Bearer " ++ tok)) :
  AuthMiddleware.extractToken req = Some tok.
Proof.
  unfold AuthMiddleware.extractToken. rewrite Hh.
  rewrite starts_with_app. reflexivity.
Qed.

Lemma extractToken_bearer_witness :
  AuthMiddleware.extractToken (bearer_request (lit "abc") (lit "xyz")) = Some (lit "abc").
Proof. exact (extractToken_bearer (bearer_request (lit "abc") (lit "xyz")) (lit "abc") eq_refl). Defined.

(** Without a [Bearer ] header the token is the cookie's, and an empty
    cookie token is no token. *)
Lemma extractToken_cookie (req : AuthMiddleware.Request) :
  (forall h, AuthMiddleware.authorization req = Some h ->
             starts_with (lit "Bearer ") h = false) ->
  AuthMiddleware.extractToken req = AuthMiddleware.cookie_token req /\
  AuthMiddleware.extractToken req <> Some [].
Proof.
  intros Hno.
  assert (E : AuthMiddleware.extractToken req = AuthMiddleware.cookie_token req).
  { unfold AuthMiddleware.extractToken.
    destruct (AuthMiddleware.authorization req) as [h|]; [|reflexivity].
    rewrite (Hno h eq_refl). now rewrite andb_false_r. }
  split; [exact E|]. rewrite E.
  unfold AuthMiddleware.cookie_token.
  destruct (AuthMiddleware.cookies req) as [[[[|x tok]|]]|]; discriminate.
Qed.

Lemma extractToken_cookie_witness :
  AuthMiddleware.extractToken (cookie_request (lit "abc"))
  = AuthMiddleware.cookie_token (cookie_request (lit "abc")) /\
  AuthMiddleware.extractToken (cookie_request (lit "abc")) <> Some [].
Proof.
  apply extractToken_cookie. intros h H. discriminate H.
Defined.

(** [roles.some(role => user.roles.includes(role))]. *)
Lemma hasRole_spec (required have : list jsstring) :
  existsb (fun role => existsb (fun r => jsstring_eqb r role) have) required = true <->
  exists role, In role required /\ In role have.
Proof.
  rewrite existsb_exists. split.
  - intros (role & Hin & Hex). apply existsb_exists in Hex as (r & Hr & Heq).
    apply jsstring_eqb_eq in Heq. subst r. now exists role.
  - intros (role & Hin & Hr). exists role. split; [exact Hin|].
    apply existsb_exists. exists role. split; [exact Hr|]. apply jsstring_eqb_refl.
Qed.

Section Middleware.

Variable jwt_verify : jsstring -> jsstring -> option AuthMiddleware.User.
Variable self : AuthMiddleware.t.

(** [authenticate] calls [next()] exactly when the request carries a
    non-empty token that [jwt.verify] accepts under the configured secret; the
    request it passes on is the incoming one with [user] set to the decoded
    payload.  In every other case it answers 401. *)
Theorem authenticate_next_iff (req req' : AuthMiddleware.Request) :
  AuthMiddleware.authenticate jwt_verify self req = AuthMiddleware.Next req' <->
  exists tok decoded,
    AuthMiddleware.extractToken req = Some tok /\ tok <> [] /\
    jwt_verify tok (AuthMiddleware.jwtSecret self) = Some decoded /\
    req' = AuthMiddleware.set_user decoded req.
Proof.
  unfold AuthMiddleware.authenticate. split.
  - destruct (AuthMiddleware.extractToken req) as [[|x tok]|]; try discriminate.
    destruct (jwt_verify (x :: tok) (AuthMiddleware.jwtSecret self)) as [d|] eqn:E;
      try discriminate.
    intros [= <-]. exists (x :: tok), d. repeat split; [discriminate | exact E].
  - intros (tok & d & Ht & Hne & Hv & ->). rewrite Ht.
    destruct tok as [|x tok]; [congruence|]. now rewrite Hv.
Qed.

(** Whenever [authenticate] does not call [next()], it answers with
    status 401. *)
Theorem authenticate_refuses_with_401 (req : AuthMiddleware.Request)
    (status : Z) (error : jsstring) :
  AuthMiddleware.authenticate jwt_verify self req
  = AuthMiddleware.Responded status error ->
  status = 401%Z /\
  (error = lit "No token provided" \/ error = lit "Invalid token").
Proof.
  unfold AuthMiddleware.authenticate.
  destruct (AuthMiddleware.extractToken req) as [[|x tok]|].
  - intros [= <- <-]. auto.
  - destruct (jwt_verify (x :: tok) (AuthMiddleware.jwtSecret self));
      [discriminate|]. intros [= <- <-]. auto.
  - intros [= <- <-]. auto.
Qed.

(** A header that is [Bearer ] and nothing more is answered 401 "No token
    provided", also when the request has a cookie token that [jwt.verify]
    would accept: the cookie is not read. *)
Theorem empty_bearer_hides_cookie (req : AuthMiddleware.Request)
    (Hh : AuthMiddleware.authorization req = Some (lit "Bearer ")) :
  AuthMiddleware.authenticate jwt_verify self req
  = AuthMiddleware.Responded 401 (lit "No token provided").
Proof.
  unfold AuthMiddleware.authenticate, AuthMiddleware.extractToken.
  rewrite Hh. reflexivity.
Qed.

(** [authorize(required)] calls [next()], with the request unchanged,
    exactly when the request has a user one of whose roles is among the
    required ones; it answers 401 when there is no user and 403 when the user
    has none of the roles.  With no required role it never calls [next()]. *)
Theorem authorize_next_iff (required : list jsstring)
    (req req' : AuthMiddleware.Request) :
  (AuthMiddleware.authorize required req = AuthMiddleware.Next req' <->
   req' = req /\
   exists u role, AuthMiddleware.user req = Some u /\
                  In role required /\ In role (AuthMiddleware.roles u)) /\
  (AuthMiddleware.user req = None <->
   AuthMiddleware.authorize required req
   = AuthMiddleware.Responded 401 (lit "Not authenticated")) /\
  ((exists u, AuthMiddleware.user req = Some u /\
              forall role, In role required -> ~ In role (AuthMiddleware.roles u)) <->
   AuthMiddleware.authorize required req
   = AuthMiddleware.Responded 403 (lit "Insufficient permissions")) /\
  AuthMiddleware.authorize [] req <> AuthMiddleware.Next req'.
Proof.
  unfold AuthMiddleware.authorize.
  destruct (AuthMiddleware.user req) as [u|].
  2:{ split; [|split; [|split]].
      - split; [discriminate|]. intros (_ & u & r & H & _). discriminate H.
      - split; reflexivity.
      - split; [|discriminate]. intros (u & H & _). discriminate H.
      - discriminate. }
  cbv zeta.
  set (has := existsb (fun role => existsb (fun r => jsstring_eqb r role)
                                           (AuthMiddleware.roles u)) required).
  assert (Hhas : has = true <->
                 exists role, In role required /\ In role (AuthMiddleware.roles u)).
  { apply hasRole_spec. }
  destruct has; cbn [negb existsb].
  - destruct (proj1 Hhas eq_refl) as (role & Hin & Hr).
    split; [|split; [|split]].
    + split.
      * intros [= <-]. split; [reflexivity|]. now exists u, role.
      * now intros [-> _].
    + split; discriminate.
    + split; [|discriminate].
      intros (u' & [= <-] & Hno). exfalso. exact (Hno role Hin Hr).
    + discriminate.
  - assert (Hnone : forall role, In role required -> ~ In role (AuthMiddleware.roles u)).
    { intros role Hin Hr.
      assert (false = true) by (apply Hhas; now exists role). discriminate. }
    split; [|split; [|split]].
    + split; [discriminate|].
      intros (_ & u' & role & [= <-] & Hin & Hr). exfalso. exact (Hnone role Hin Hr).
    + split; discriminate.
    + split; [reflexivity|]. intros _. now exists u.
    + discriminate.
Qed.

(** The admin route, [authenticate] then [authorize(required)]: [next()] is
    reached only for a request whose token [jwt.verify] accepts and whose
    decoded payload has one of the required roles; the "Not authenticated"
    answer of [authorize] is never given. *)
Theorem protected_route (required : list jsstring)
    (req : AuthMiddleware.Request) :
  (forall req',
     AuthMiddleware.use2 (AuthMiddleware.authenticate jwt_verify self)
                         (AuthMiddleware.authorize required) req
     = AuthMiddleware.Next req' ->
     exists tok decoded role,
       AuthMiddleware.extractToken req = Some tok /\ tok <> [] /\
       jwt_verify tok (AuthMiddleware.jwtSecret self) = Some decoded /\
       In role required /\ In role (AuthMiddleware.roles decoded) /\
       req' = AuthMiddleware.set_user decoded req) /\
  AuthMiddleware.use2 (AuthMiddleware.authenticate jwt_verify self)
                      (AuthMiddleware.authorize required) req
  <> AuthMiddleware.Responded 401 (lit "Not authenticated").
Proof.
  unfold AuthMiddleware.use2, AuthMiddleware.authenticate.
  destruct (AuthMiddleware.extractToken req) as [[|x tok]|];
    try (split; [discriminate | intros H; vm_compute in H; discriminate H]).
  destruct (jwt_verify (x :: tok) (AuthMiddleware.jwtSecret self)) as [d|] eqn:Hv;
    try (split; [discriminate | intros H; vm_compute in H; discriminate H]).
  unfold AuthMiddleware.authorize.
  cbn [AuthMiddleware.user AuthMiddleware.set_user].
  pose proof (hasRole_spec required (AuthMiddleware.roles d)) as Hhas.
  destruct (existsb _ required); cbn [negb].
  - split; [|discriminate].
    intros req' [= <-]. destruct (proj1 Hhas eq_refl) as (role & Hin & Hr).
    exists (x :: tok), d, role. repeat split; try assumption. discriminate.
  - split; [discriminate|]. intros H. discriminate H.
Qed.

End Middleware.

Lemma authenticate_refuses_with_401_witness :
  401%Z = 401%Z /\
  (lit "Invalid token" = lit "No token provided"
   \/ lit "Invalid token" = lit "Invalid token").
Proof.
  exact (authenticate_refuses_with_401 demo_jwt_verify demo_auth
           (cookie_request (lit "bad")) 401 (lit "Invalid token") eq_refl).
Defined.

Lemma empty_bearer_hides_cookie_witness :
  AuthMiddleware.authenticate demo_jwt_verify demo_auth
    (bearer_request [] (lit "good"))
  = AuthMiddleware.Responded 401 (lit "No token provided").
Proof.
  exact (empty_bearer_hides_cookie demo_jwt_verify demo_auth
           (bearer_request [] (lit "good")) eq_refl).
Defined.

(* ================================================================= *)
(** * Invalidation batches *)

Lemma slice_batch (files : list jsstring) (b i : Z) :
  (1 <= b)%Z -> (0 <= i < Z.of_nat (List.length files))%Z ->
  SmartCacheInvalidator.slice files i (i + b)
  = firstn (Z.to_nat b) (skipn (Z.to_nat i) files).
Proof.
  intros Hb Hi. unfold SmartCacheInvalidator.slice. cbv zeta.
  destruct (Z.ltb_spec i 0); [lia|].
  destruct (Z.ltb_spec (i + b) 0); [lia|].
  rewrite (Z.min_l i) by lia.
  set (r := skipn (Z.to_nat i) files).
  assert (Hr : List.length r = (List.length files - Z.to_nat i)%nat)
    by apply length_skipn.
  destruct (Z.le_ge_cases (i + b) (Z.of_nat (List.length files))) as [Hle|Hge].
  - rewrite Z.min_l by lia. f_equal. lia.
  - rewrite Z.min_r by lia.
    rewrite !firstn_all2; [reflexivity | lia | lia].
Qed.

Section Batches.

Variable files : list jsstring.
Variable b : Z.
Hypothesis Hb : (1 <= b)%Z.

Let n : Z := Z.of_nat (List.length files).

Lemma batches_from_spec (fuel : nat) :
  forall (i : Z) (acc : list (list jsstring)),
    (0 <= i)%Z -> (List.length files - Z.to_nat i < fuel)%nat ->
    exists bs,
      SmartCacheInvalidator.batches_from fuel files b i acc = Some (acc ++ bs) /\
      List.concat bs = skipn (Z.to_nat i) files /\
      Forall (fun x => (1 <= List.length x <= Z.to_nat b)%nat) bs /\
      Forall (fun x => List.length x = Z.to_nat b) (removelast bs) /\
      Z.of_nat (List.length bs) = ((Z.max (n - i) 0 + b - 1) / b)%Z /\
      ((n <= i)%Z -> bs = []).
Proof.
  induction fuel as [|fuel IH]; intros i acc Hi Hfuel; [lia|].
  cbn [SmartCacheInvalidator.batches_from]. fold n.
  destruct (Z.ltb_spec i n) as [Hlt|Hge].
  - destruct (IH (i + b)%Z
                 (acc ++ [SmartCacheInvalidator.slice files i (i + b)]))
      as (bs & Hrun & Hcat & Hlen & Hfull & Hcount & Hnil); [lia | lia |].
    rewrite (slice_batch files b i Hb) in * by (unfold n in *; lia).
    set (r := skipn (Z.to_nat i) files) in *.
    assert (Hr : List.length r = (List.length files - Z.to_nat i)%nat)
      by apply length_skipn.
    exists (firstn (Z.to_nat b) r :: bs).
    split; [now rewrite Hrun, <- app_assoc|].
    split.
    { cbn [List.concat]. rewrite Hcat.
      replace (Z.to_nat (i + b)) with (Z.to_nat b + Z.to_nat i)%nat by lia.
      rewrite <- skipn_skipn. apply firstn_skipn. }
    split.
    { constructor; [|exact Hlen]. rewrite length_firstn. unfold n in *. lia. }
    split.
    { destruct bs as [|x bs']; [constructor|].
      change (removelast (firstn (Z.to_nat b) r :: x :: bs'))
        with (firstn (Z.to_nat b) r :: removelast (x :: bs')).
      constructor; [|exact Hfull].
      rewrite length_firstn.
      assert (~ (n <= i + b)%Z) by (intros Hc; discriminate (Hnil Hc)).
      unfold n in *. lia. }
    split.
    { cbn [List.length]. rewrite Nat2Z.inj_succ, Hcount.
      destruct (Z.le_ge_cases (n - (i + b)) 0).
      - rewrite Z.max_r, (Z.max_l (n - i)) by lia.
        rewrite (Z.div_small (0 + b - 1)) by lia.
        apply Z.div_unique with (r := (n - i - 1)%Z); lia.
      - rewrite !Z.max_l by lia.
        replace (n - i + b - 1)%Z with (n - (i + b) + b - 1 + 1 * b)%Z by lia.
        rewrite Z.div_add by lia. lia. }
    intros Hc. lia.
  - exists []. rewrite app_nil_r.
    split; [reflexivity|].
    split; [cbn; rewrite skipn_all2; [reflexivity | unfold n in *; lia]|].
    split; [constructor|]. split; [constructor|].
    split; [|reflexivity].
    rewrite Z.max_r by lia. cbn [List.length]. rewrite Z.div_small; lia.
Qed.

End Batches.

(** For a batch size of at least one the loop ends (any fuel above the
    number of files suffices) and the batches split the files: put one after
    the other they give the files back in order, every batch has between one
    and [batchSize] paths, every batch but the last has exactly [batchSize],
    and there are ceil(files.length / batchSize) of them. *)
Theorem createInvalidationBatches_splits (fuel : nat) (files : list jsstring) (b : Z)
    (Hb : (1 <= b)%Z) (Hfuel : (List.length files < fuel)%nat) :
  exists batches,
    SmartCacheInvalidator.createInvalidationBatches fuel files (Some b) = Some batches /\
    List.concat batches = files /\
    Forall (fun x => (1 <= List.length x <= Z.to_nat b)%nat) batches /\
    Forall (fun x => List.length x = Z.to_nat b) (removelast batches) /\
    Z.of_nat (List.length batches)
    = ((Z.of_nat (List.length files) + b - 1) / b)%Z.
Proof.
  destruct (batches_from_spec files b Hb fuel 0 []) as (bs & H1 & H2 & H3 & H4 & H5 & _);
    [lia | cbn; lia |].
  exists bs. unfold SmartCacheInvalidator.createInvalidationBatches.
  split; [exact H1|]. split; [exact H2|]. split; [exact H3|]. split; [exact H4|].
  rewrite H5. f_equal. lia.
Qed.

Lemma createInvalidationBatches_splits_witness :
  SmartCacheInvalidator.createInvalidationBatches 6
    [lit "/a"; lit "/b"; lit "/c"; lit "/d"; lit "/e"] (Some 2%Z)
  = Some [[lit "/a"; lit "/b"]; [lit "/c"; lit "/d"]; [lit "/e"]].
Proof.
  destruct (createInvalidationBatches_splits 6
              [lit "/a"; lit "/b"; lit "/c"; lit "/d"; lit "/e"] 2)
    as (bs & H & _); [lia | cbn; lia |].
  rewrite H. vm_compute in H. exact (eq_sym H).
Defined.

Lemma batches_from_never_ends (files : list jsstring) (b : Z) (fuel : nat) :
  (b <= 0)%Z -> files <> [] ->
  forall i acc, (i <= 0)%Z ->
    SmartCacheInvalidator.batches_from fuel files b i acc = None.
Proof.
  intros Hb Hfiles. induction fuel as [|fuel IH]; intros i acc Hi; [reflexivity|].
  cbn [SmartCacheInvalidator.batches_from].
  assert (0 < Z.of_nat (List.length files))%Z by (destruct files; [congruence | cbn; lia]).
  destruct (Z.ltb_spec i (Z.of_nat (List.length files))); [|lia].
  apply IH. lia.
Qed.

(** With a batch size of zero, or a negative one, and at least one file
    the loop never ends: no number of steps gives a result.  (The index does
    not advance past the files; each round pushes one more batch.) *)
Theorem createInvalidationBatches_diverges (fuel : nat) (files : list jsstring) (b : Z)
    (Hb : (b <= 0)%Z) (Hfiles : files <> []) :
  SmartCacheInvalidator.createInvalidationBatches fuel files (Some b) = None.
Proof.
  unfold SmartCacheInvalidator.createInvalidationBatches.
  apply batches_from_never_ends; [exact Hb | exact Hfiles | lia].
Qed.

Lemma createInvalidationBatches_diverges_witness :
  SmartCacheInvalidator.createInvalidationBatches 1000 [lit "/index.html"] (Some 0%Z)
  = None.
Proof.
  apply (createInvalidationBatches_diverges 1000 [lit "/index.html"] 0).
  - lia.
  - discriminate.
Defined.

(** No file, no batch, whatever the batch size. *)
Example createInvalidationBatches_empty (fuel : nat) (b : option Z) :
  SmartCacheInvalidator.createInvalidationBatches (S fuel) [] b = Some [].
Proof. reflexivity. Qed.

Section Invalidation.

Variable World : Type.
Variable send : SmartCacheInvalidator.CreateInvalidationCommand -> World -> jsstring * World.
Variable Date_now : World -> Z.
Variable Math_random : World -> jsstring * World.
Variable setTimeout : Z -> World -> World.
Variable console_log : jsstring -> World -> World.

(** With a previous deployment tag [invalidateChangedFiles] invalidates
    nothing: it returns no invalidation id, and the world it leaves is the one
    it found but for one line on the console; no command is sent, whatever the
    bucket holds. *)
Theorem invalidateChangedFiles_with_tag (fuel : nat)
    (bucketName distributionId tag : jsstring) (w : World)
    (Htag : truthy (Some tag) = true) :
  SmartCacheInvalidator.invalidateChangedFiles World send Date_now Math_random
    setTimeout console_log fuel bucketName distributionId (Some tag) w
  = Some ([], console_log (lit "No files changed, skipping invalidation") w).
Proof.
  unfold SmartCacheInvalidator.invalidateChangedFiles,
    SmartCacheInvalidator.getChangedFiles.
  now rewrite Htag.
Qed.

(** Without a previous deployment tag (none, or an empty one) it sends one
    command, for the single path [/*] with [Quantity] 1, then waits one
    second, and returns the one id the client answered. *)
Theorem invalidateChangedFiles_first_deployment (fuel : nat)
    (bucketName distributionId : jsstring) (tag : option jsstring) (w : World)
    (Htag : truthy tag = false) :
  let (random, w1) := Math_random w in
  let command :=
    {| SmartCacheInvalidator.DistributionId := distributionId;
       SmartCacheInvalidator.CallerReference :=
         lit "smart-invalidation-" ++ Number_toString (Date_now w)
         ++ lit "-" ++ random;
       SmartCacheInvalidator.Quantity := 1;
       SmartCacheInvalidator.Items := [lit "/*"] |} in
  SmartCacheInvalidator.invalidateChangedFiles World send Date_now Math_random
    setTimeout console_log (S (S fuel)) bucketName distributionId tag w
  = Some ([fst (send command w1)], setTimeout 1000 (snd (send command w1))).
Proof.
  unfold SmartCacheInvalidator.invalidateChangedFiles,
    SmartCacheInvalidator.getChangedFiles.
  rewrite Htag. cbn [negb].
  change (SmartCacheInvalidator.createInvalidationBatches (S (S fuel)) [lit "/*"] None)
    with (Some [[lit "/*"]]).
  cbn [SmartCacheInvalidator.invalidate_batches].
  unfold SmartCacheInvalidator.invalidateCache.
  destruct (Math_random w) as [random w1].
  cbn [List.length Z.of_nat Pos.of_succ_nat].
  destruct (send _ w1) as [id w2]. reflexivity.
Qed.

End Invalidation.

Lemma invalidateChangedFiles_with_tag_witness :
  SmartCacheInvalidator.invalidateChangedFiles demo_World demo_send demo_Date_now
    demo_Math_random demo_setTimeout demo_console_log
    5 (lit "website") (lit "E2DISTRIBUTION") (Some (lit "v1.0.0")) []
  = Some ([], []).
Proof.
  exact (invalidateChangedFiles_with_tag demo_World demo_send demo_Date_now
           demo_Math_random demo_setTimeout demo_console_log
           5 (lit "website") (lit "E2DISTRIBUTION") (lit "v1.0.0") [] eq_refl).
Defined.

Lemma invalidateChangedFiles_first_deployment_witness :
  SmartCacheInvalidator.invalidateChangedFiles demo_World demo_send demo_Date_now
    demo_Math_random demo_setTimeout demo_console_log
    2 (lit "website") (lit "E2DISTRIBUTION") None []
  = Some ([lit "I1"],
          [ {| SmartCacheInvalidator.DistributionId := lit "E2DISTRIBUTION";
               SmartCacheInvalidator.CallerReference :=
                 lit "smart-invalidation-1700000000000-0.5";
               SmartCacheInvalidator.Quantity := 1;
               SmartCacheInvalidator.Items := [lit "/*"] |} ]).
Proof.
  exact (invalidateChangedFiles_first_deployment demo_World demo_send demo_Date_now
           demo_Math_random demo_setTimeout demo_console_log
           0 (lit "website") (lit "E2DISTRIBUTION") None [] eq_refl).
Defined.

(* ================================================================= *)
(** * The matcher decides the language of a pattern *)

Lemma nullable_language (r : RegExp.t) :
  RegExp.nullable r = true <-> RegExp.language r [].
Proof.
  induction r as [| | p | r1 IH1 r2 IH2 | r1 IH1 r2 IH2 | r IH];
    cbn [RegExp.nullable RegExp.language].
  - split; [discriminate | tauto].
  - split; reflexivity.
  - split; [discriminate | intros (c & H & _); discriminate H].
  - rewrite andb_true_iff, IH1, IH2. split.
    + intros [H1 H2]. now exists [], [].
    + intros (s1 & s2 & E & H1 & H2).
      symmetry in E. apply app_eq_nil in E as [-> ->]. now split.
  - now rewrite orb_true_iff, IH1, IH2.
  - split; [|reflexivity]. intros _. now exists [].
Qed.

Lemma language_Star_cons (r : RegExp.t) (c : N) (s : jsstring) :
  RegExp.language (RegExp.Star r) (c :: s) <->
  exists s1 s2, s = s1 ++ s2 /\ RegExp.language r (c :: s1)
                /\ RegExp.language (RegExp.Star r) s2.
Proof.
  cbn [RegExp.language]. split.
  - intros (parts & E & Hall).
    induction Hall as [|p parts Hp Hall IH]; cbn [List.concat] in E; [discriminate|].
    destruct p as [|x p]; [now apply IH|].
    cbn [app] in E. injection E as <- ->.
    exists p, (List.concat parts). split; [reflexivity|]. split; [exact Hp|].
    now exists parts.
  - intros (s1 & s2 & -> & H1 & parts & -> & Hall).
    exists ((c :: s1) :: parts). split; [reflexivity|]. now constructor.
Qed.

Lemma derive_language (r : RegExp.t) :
  forall (c : N) (s : jsstring),
    RegExp.language (RegExp.derive c r) s <-> RegExp.language r (c :: s).
Proof.
  induction r as [| | p | r1 IH1 r2 IH2 | r1 IH1 r2 IH2 | r IH]; intros c s.
  - reflexivity.
  - cbn. split; [tauto | discriminate].
  - cbn [RegExp.derive RegExp.language]. destruct (p c) eqn:Hp; cbn [RegExp.language].
    + split; [intros ->; now exists c | now intros (c' & [= <- ->] & _)].
    + split; [tauto | intros (c' & [= <- ->] & H); congruence].
  - assert (Hseq : RegExp.language (RegExp.Seq (RegExp.derive c r1) r2) s <->
                   exists s1 s2, s = s1 ++ s2 /\ RegExp.language r1 (c :: s1)
                                 /\ RegExp.language r2 s2).
    { cbn [RegExp.language]. split.
      - intros (s1 & s2 & E & H1 & H2). exists s1, s2. now rewrite <- IH1.
      - intros (s1 & s2 & E & H1 & H2). exists s1, s2. now rewrite IH1. }
    assert (Hgoal : RegExp.language (RegExp.Seq r1 r2) (c :: s) <->
                    (exists s1 s2, s = s1 ++ s2 /\ RegExp.language r1 (c :: s1)
                                   /\ RegExp.language r2 s2)
                    \/ (RegExp.language r1 [] /\ RegExp.language r2 (c :: s))).
    { cbn [RegExp.language]. split.
      - intros (s1 & s2 & E & H1 & H2). destruct s1 as [|x s1].
        + right. cbn [app] in E. now subst s2.
        + left. cbn [app] in E. injection E as <- ->. now exists s1, s2.
      - intros [(s1 & s2 & -> & H1 & H2) | [H1 H2]].
        + now exists (c :: s1), s2.
        + now exists [], (c :: s). }
    rewrite Hgoal. cbn [RegExp.derive].
    destruct (RegExp.nullable r1) eqn:Hn.
    + change (RegExp.language (RegExp.Alt (RegExp.Seq (RegExp.derive c r1) r2)
                                          (RegExp.derive c r2)) s)
        with (RegExp.language (RegExp.Seq (RegExp.derive c r1) r2) s
              \/ RegExp.language (RegExp.derive c r2) s).
      rewrite Hseq, IH2. apply nullable_language in Hn. tauto.
    + rewrite Hseq. split; [tauto|].
      intros [H|[H _]]; [exact H|].
      apply nullable_language in H. congruence.
  - cbn [RegExp.derive RegExp.language]. now rewrite IH1, IH2.
  - rewrite language_Star_cons.
    change (RegExp.derive c (RegExp.Star r))
      with (RegExp.Seq (RegExp.derive c r) (RegExp.Star r)).
    cbn [RegExp.language]. split.
    + intros (s1 & s2 & E & H1 & H2). exists s1, s2. now rewrite <- IH.
    + intros (s1 & s2 & E & H1 & H2). exists s1, s2. now rewrite IH.
Qed.

(** The test by derivatives accepts exactly the strings of the pattern. *)
Lemma test_language (r : RegExp.t) (s : jsstring) :
  RegExp.test r s = true <-> RegExp.language r s.
Proof.
  revert r; induction s as [|c s IH]; intros r; cbn [RegExp.test].
  - apply nullable_language.
  - now rewrite IH, derive_language.
Qed.

Lemma language_Text (t s : jsstring) :
  RegExp.language (RegExp.Text t) s <-> s = t.
Proof.
  revert s; induction t as [|c t IH]; intros s; cbn [RegExp.Text RegExp.language].
  - reflexivity.
  - unfold RegExp.Char. cbn [RegExp.language]. split.
    + intros (s1 & s2 & -> & (c' & -> & Hc) & H2).
      apply N.eqb_eq in Hc. subst c'. apply IH in H2. now subst.
    + intros ->. exists [c], t. split; [reflexivity|]. split.
      * exists c. split; [reflexivity | apply N.eqb_refl].
      * now apply IH.
Qed.

Lemma language_Star_Class (p : N -> bool) (s : jsstring) :
  RegExp.language (RegExp.Star (RegExp.Class p)) s <-> forallb p s = true.
Proof.
  induction s as [|c s IH].
  - split; [reflexivity|]. intros _. now exists [].
  - rewrite language_Star_cons. cbn [forallb]. rewrite andb_true_iff, <- IH. split.
    + intros (s1 & s2 & -> & (c' & [= <- ->] & Hc) & H2). now split.
    + intros [Hc H2]. exists [], s. split; [reflexivity|]. split; [|exact H2].
      now exists c.
Qed.

Lemma language_Times_Class (p : N -> bool) (n : nat) (s : jsstring) :
  RegExp.language (RegExp.Times n (RegExp.Class p)) s <->
  List.length s = n /\ forallb p s = true.
Proof.
  revert s; induction n as [|n IH]; intros s; cbn [RegExp.Times RegExp.language].
  - split; [now intros -> | intros [H _]; now destruct s].
  - split.
    + intros (s1 & s2 & -> & (c & -> & Hc) & H2). apply IH in H2 as [Hl Hp].
      cbn [app List.length forallb]. rewrite Hc, Hp, Hl. now split.
    + intros [Hl Hp]. destruct s as [|c s]; [discriminate|].
      cbn [List.length forallb] in *. apply andb_true_iff in Hp as [Hc Hp].
      exists [c], s. split; [reflexivity|]. split; [now exists c|].
      apply IH. split; [lia | exact Hp].
Qed.

Lemma language_AtLeast_Class (p : N -> bool) (n : nat) (s : jsstring) :
  RegExp.language (RegExp.AtLeast n (RegExp.Class p)) s <->
  (n <= List.length s)%nat /\ forallb p s = true.
Proof.
  unfold RegExp.AtLeast.
  change (RegExp.language (RegExp.Seq ?a ?b) s)
    with (exists s1 s2, s = s1 ++ s2 /\ RegExp.language a s1 /\ RegExp.language b s2).
  split.
  - intros (s1 & s2 & -> & H1 & H2).
    apply language_Times_Class in H1 as [Hl Hp1]. apply language_Star_Class in H2.
    rewrite length_app, forallb_app, Hp1, H2. split; [lia | reflexivity].
  - intros [Hl Hp]. exists (firstn n s), (skipn n s).
    rewrite <- (firstn_skipn n s) in Hp. rewrite forallb_app in Hp.
    apply andb_true_iff in Hp as [Hp1 Hp2].
    split; [now rewrite firstn_skipn|]. split.
    + apply language_Times_Class. split; [|exact Hp1]. rewrite length_firstn. lia.
    + now apply language_Star_Class.
Qed.

Lemma language_Plus_Class (p : N -> bool) (s : jsstring) :
  RegExp.language (RegExp.Plus (RegExp.Class p)) s <->
  s <> [] /\ forallb p s = true.
Proof.
  unfold RegExp.Plus.
  change (RegExp.language (RegExp.Seq ?a ?b) s)
    with (exists s1 s2, s = s1 ++ s2 /\ RegExp.language a s1 /\ RegExp.language b s2).
  split.
  - intros (s1 & s2 & -> & (c & -> & Hc) & H2). apply language_Star_Class in H2.
    cbn [app forallb]. rewrite Hc, H2. now split.
  - intros [Hne Hp]. destruct s as [|c s]; [congruence|].
    cbn [forallb] in Hp. apply andb_true_iff in Hp as [Hc Hp].
    exists [c], s. split; [reflexivity|]. split; [now exists c|].
    now apply language_Star_Class.
Qed.

(* ================================================================= *)
(** * The configuration validator *)

(** [/^K2[A-Z0-9]{10,}$/] accepts exactly [K2] followed by ten or more
    upper-case letters or digits. *)
Lemma public_key_id_pattern_accepts (s : jsstring) :
  RegExp.test ConfigValidator.public_key_id_pattern s = true <->
  exists rest, s = lit "K2" ++ rest /\ (10 <= List.length rest)%nat
               /\ forallb ConfigValidator.upper_or_digit rest = true.
Proof.
  rewrite test_language. unfold ConfigValidator.public_key_id_pattern.
  change (RegExp.language (RegExp.Seq ?a ?b) s)
    with (exists s1 s2, s = s1 ++ s2 /\ RegExp.language a s1 /\ RegExp.language b s2).
  split.
  - intros (s1 & s2 & -> & H1 & H2). apply language_Text in H1. subst s1.
    apply language_AtLeast_Class in H2. now exists s2.
  - intros (rest & -> & Hl & Hp). exists (lit "K2"), rest.
    split; [reflexivity|]. split; [now apply language_Text|].
    now apply language_AtLeast_Class.
Qed.

(** [/^[a-z0-9.-]+$/] accepts exactly the non-empty strings of lower-case
    letters, digits, dots and hyphens. *)
Lemma bucket_name_pattern_accepts (s : jsstring) :
  RegExp.test ConfigValidator.bucket_name_pattern s = true <->
  s <> [] /\ forallb ConfigValidator.bucket_char s = true.
Proof.
  rewrite test_language. apply language_Plus_Class.
Qed.

(** [/^[a-zA-Z0-9.-]+\.[a-zA-Z]{2,}$/] accepts exactly [name.tld] with a
    non-empty name of letters, digits, dots and hyphens and a top-level
    label of two or more letters. *)
Lemma domain_pattern_accepts (s : jsstring) :
  RegExp.test ConfigValidator.domain_pattern s = true <->
  exists name tld,
    s = name ++ 46%N :: tld
    /\ name <> [] /\ forallb ConfigValidator.domain_char name = true
    /\ (2 <= List.length tld)%nat /\ forallb ConfigValidator.letter tld = true.
Proof.
  rewrite test_language. unfold ConfigValidator.domain_pattern.
  change (RegExp.language (RegExp.Seq ?a (RegExp.Seq ?b ?c)) s)
    with (exists s1 s2, s = s1 ++ s2 /\ RegExp.language a s1 /\
            exists s3 s4, s2 = s3 ++ s4 /\ RegExp.language b s3 /\ RegExp.language c s4).
  split.
  - intros (s1 & s2 & -> & H1 & s3 & s4 & -> & (c & -> & Hc) & H4).
    apply N.eqb_eq in Hc. subst c.
    apply language_Plus_Class in H1 as [Hne Hp].
    apply language_AtLeast_Class in H4 as [Hl Hq].
    exists s1, s4. cbn [app]. tauto.
  - intros (name & tld & -> & Hne & Hp & Hl & Hq).
    exists name, (46%N :: tld). split; [reflexivity|].
    split; [now apply language_Plus_Class|].
    exists [46%N], tld. split; [reflexivity|].
    split; [exists 46%N; now split | now apply language_AtLeast_Class].
Qed.

Lemma domain_errors_nil (domains : list jsstring) :
  ConfigValidator.domain_errors domains = [] <->
  Forall (fun d => RegExp.test ConfigValidator.domain_pattern d = true) domains.
Proof.
  induction domains as [|d ds IH]; cbn [ConfigValidator.domain_errors].
  - split; [constructor | reflexivity].
  - destruct (RegExp.test ConfigValidator.domain_pattern d) eqn:E; cbn [negb app].
    + rewrite IH. split; [now constructor | now inversion 1].
    + split; [discriminate | inversion 1; congruence].
Qed.

(** [validate] returns without throwing exactly when the certificate is an
    ACM certificate of us-east-1, the key id and the bucket name match
    their patterns, and every delivery alias matches the domain pattern. *)
Lemma validate_accepts_iff (config : ConfigValidator.EnvironmentConfig) :
  ConfigValidator.validate config = inr tt <->
  starts_with (lit "arn:aws:acm:us-east-1:") (ConfigValidator.certificateArn config) = true
  /\ RegExp.test ConfigValidator.public_key_id_pattern
       (ConfigValidator.viewersPublicKeyId config) = true
  /\ RegExp.test ConfigValidator.bucket_name_pattern
       (ConfigValidator.loginBucketName config) = true
  /\ forall domains, ConfigValidator.deliveryAliases config = Some domains ->
       Forall (fun d => RegExp.test ConfigValidator.domain_pattern d = true) domains.
Proof.
  unfold ConfigValidator.validate, ConfigValidator.errors.
  destruct (starts_with _ (ConfigValidator.certificateArn config));
    destruct (RegExp.test _ (ConfigValidator.viewersPublicKeyId config));
    destruct (RegExp.test _ (ConfigValidator.loginBucketName config));
    cbn [negb app];
    try (split; [discriminate | intros (? & ? & ? & _); discriminate]).
  destruct (ConfigValidator.deliveryAliases config) as [domains|].
  - pose proof (domain_errors_nil domains) as Hd.
    destruct (ConfigValidator.domain_errors domains) as [|e rest].
    + split; [|reflexivity]. intros _. repeat split.
      intros ds [= <-]. now apply Hd.
    + split; [discriminate|]. intros (_ & _ & _ & H).
      specialize (H domains eq_refl). apply Hd in H. discriminate.
  - split; [|reflexivity]. intros _. repeat split. discriminate.
Qed.

Lemma domain_errors_length (domains : list jsstring) :
  List.length (ConfigValidator.domain_errors domains) =
  List.length (filter (fun d => negb (RegExp.test ConfigValidator.domain_pattern d)) domains).
Proof.
  induction domains as [|d ds IH];
    cbn [ConfigValidator.domain_errors filter]; [reflexivity|].
  destruct (RegExp.test ConfigValidator.domain_pattern d); cbn [negb app List.length];
    now rewrite IH.
Qed.

(** [validate] does not stop at the first failure: the message it throws
    has one line per failed check after its heading, one for each of the
    certificate, key id and bucket name that fails and one for each
    delivery alias that fails. *)
Lemma errors_reports_every_failure (config : ConfigValidator.EnvironmentConfig) :
  List.length (ConfigValidator.errors config) =
  ((if starts_with (lit "arn:aws:acm:us-east-1:") (ConfigValidator.certificateArn config)
    then 0 else 1)
   + (if RegExp.test ConfigValidator.public_key_id_pattern
           (ConfigValidator.viewersPublicKeyId config) then 0 else 1)
   + (if RegExp.test ConfigValidator.bucket_name_pattern
           (ConfigValidator.loginBucketName config) then 0 else 1)
   + match ConfigValidator.deliveryAliases config with
     | Some domains =>
         List.length
           (filter (fun d => negb (RegExp.test ConfigValidator.domain_pattern d)) domains)
     | None => 0
     end)%nat.
Proof.
  unfold ConfigValidator.errors. rewrite !length_app.
  destruct (starts_with _ (ConfigValidator.certificateArn config));
    destruct (RegExp.test _ (ConfigValidator.viewersPublicKeyId config));
    destruct (RegExp.test _ (ConfigValidator.loginBucketName config));
    destruct (ConfigValidator.deliveryAliases config) as [domains|];
    cbn [negb List.length]; rewrite ?domain_errors_length; lia.
Qed.

(** The three configurations of [environments] pass the validator. *)
Lemma environments_validate :
  ConfigValidator.validate ConfigValidator.development = inr tt
  /\ ConfigValidator.validate ConfigValidator.staging = inr tt
  /\ ConfigValidator.validate ConfigValidator.production = inr tt.
Proof. vm_compute. repeat split. Qed.

(** The domain pattern wants a top-level label of letters: it refuses a
    single-label host and a name with a trailing dot, and it accepts a name
    that starts with dots. *)
Lemma domain_pattern_edges :
  RegExp.test ConfigValidator.domain_pattern (lit "localhost") = false
  /\ RegExp.test ConfigValidator.domain_pattern (lit "example.com.") = false
  /\ RegExp.test ConfigValidator.domain_pattern (lit "..com") = true.
Proof. vm_compute. repeat split. Qed.


Section Ids.

Variable World : Type.
Variable send : SmartCacheInvalidator.CreateInvalidationCommand -> World -> jsstring * World.
Variable Date_now : World -> Z.
Variable Math_random : World -> jsstring * World.
Variable setTimeout : Z -> World -> World.


End Ids.
